(** * The caching definition index of a Dagster repository

    A shallow embedding of
    [python_modules/dagster/dagster/_core/definitions/repository_definition/caching_index.py]
    (class [_CacheingDefinitionIndex]) and the properties of its lookups:
    what the name list is, what a lookup returns and caches, which
    collaborators (factories, the validation function, the lazy loader) a
    lookup calls, and how it fails.

    The object's fields become a record; every method is a function in a
    state-and-exception monad over that record, so that what a method has
    written before it raises is still there afterwards, as in Python. *)

From stdpp Require Import gmap strings list.
From Stdlib Require Import Sorting.Sorted Sorting.Permutation.
From Stdlib Require OrderedTypeEx.

Local Open Scope string_scope.
Local Open Scope list_scope.

(** ** Python values *)

(** What the index needs of the definition class it is instantiated at
    ([RepositoryLevelDefinition] in the source): the [name] attribute and
    [==]. Nothing is assumed of [==]. *)
Class RepositoryLevelDefinition (D : Type) := {
  name : D -> string;
  def_eqb : D -> D -> bool
}.

(** Exceptions. [check.invariant] raises [CheckError] with its description;
    [UserError] stands for whatever a collaborator raises on its own. *)
Inductive exn :=
| CheckError (description : string)
| DagsterInvariantViolationError (message : string)
| KeyError (key : string)
| AttributeError (attribute : string)
| TypeError (message : string)
| UserError (tag : string).

Inductive result (A : Type) :=
| Ok (a : A)
| Raise (e : exn).
Arguments Ok {A} a.
Arguments Raise {A} e.

(** An object handed to the index: an instance of the definition class, a
    zero-argument callable, or anything else. An object that is no instance
    carries the text that [type] prints for it, [type_] (a function, a
    [functools.partial], a class, ...), and has no [name] attribute here. *)
#[local] Set Warnings "-register-all".
Inductive pyobj (D : Type) :=
| Inst (d : D)
| Callable (call : unit -> result (pyobj D)) (type_ : string)
| Other (type_ : string).
Arguments Inst {D} d.
Arguments Callable {D} call type_.
Arguments Other {D} type_.

(** Calls that leave the index, and the one internal step the claims count
    (line 94, where the name list is built). The log is ghost state. *)
Inductive event (D : Type) :=
| LazyDefinitionsFnCalled
| FactoryCalled (key : string)
| ValidationFnCalled (d : D)
| NamesBuilt.
Arguments LazyDefinitionsFnCalled {D}.
Arguments FactoryCalled {D} key.
Arguments ValidationFnCalled {D} d.
Arguments NamesBuilt {D}.

(** ** The object *)

Record _CacheingDefinitionIndex (D : Type) := mkIndex {
  _definition_class_name : string;
  _definition_kind : string;
  _validation_fn : D -> result D;
  _definitions : list (string * pyobj D);
  _definition_cache : gmap string D;
  _definition_names : option (list string);
  _lazy_definitions_fn : unit -> result (list (pyobj D));
  _lazy_definitions : option (list (pyobj D));
  _all_definitions : option (list D);
  calls : list (event D)
}.
Arguments mkIndex {D}.
Arguments _definition_class_name {D}.
Arguments _definition_kind {D}.
Arguments _validation_fn {D}.
Arguments _definitions {D}.
Arguments _definition_cache {D}.
Arguments _definition_names {D}.
Arguments _lazy_definitions_fn {D}.
Arguments _lazy_definitions {D}.
Arguments _all_definitions {D}.
Arguments calls {D}.

(** ** State and exceptions *)

Definition M (D A : Type) : Type :=
  _CacheingDefinitionIndex D -> result A * _CacheingDefinitionIndex D.

Definition ret {D A} (a : A) : M D A := fun self => (Ok a, self).

Definition raise {D A} (e : exn) : M D A := fun self => (Raise e, self).

Definition bind {D A B} (m : M D A) (k : A -> M D B) : M D B :=
  fun self =>
    match m self with
    | (Ok a, self') => k a self'
    | (Raise e, self') => (Raise e, self')
    end.

Notation "x <- m ;; k" := (bind m (fun x => k))
  (at level 100, m at next level, right associativity).
Notation "m ;;; k" := (bind m (fun _ => k))
  (at level 100, right associativity).

Definition gets {D A} (f : _CacheingDefinitionIndex D -> A) : M D A :=
  fun self => (Ok (f self), self).

Definition lift {D A} (r : result A) : M D A := fun self => (r, self).

Definition log {D} (ev : event D) : M D unit :=
  fun self =>
    (Ok tt,
     mkIndex (_definition_class_name self) (_definition_kind self)
       (_validation_fn self) (_definitions self) (_definition_cache self)
       (_definition_names self) (_lazy_definitions_fn self)
       (_lazy_definitions self) (_all_definitions self)
       (calls self ++ [ev])).

(** [self._definition_cache[key] = d] *)
Definition set_definition_cache {D} (key : string) (d : D) : M D unit :=
  fun self =>
    (Ok tt,
     mkIndex (_definition_class_name self) (_definition_kind self)
       (_validation_fn self) (_definitions self)
       (<[key := d]> (_definition_cache self))
       (_definition_names self) (_lazy_definitions_fn self)
       (_lazy_definitions self) (_all_definitions self) (calls self)).

(** [self._definition_names = names] *)
Definition set_definition_names {D} (names : list string) : M D unit :=
  fun self =>
    (Ok tt,
     mkIndex (_definition_class_name self) (_definition_kind self)
       (_validation_fn self) (_definitions self) (_definition_cache self)
       (Some names) (_lazy_definitions_fn self)
       (_lazy_definitions self) (_all_definitions self) (calls self)).

(** [self._lazy_definitions = batch] *)
Definition set_lazy_definitions {D} (batch : list (pyobj D)) : M D unit :=
  fun self =>
    (Ok tt,
     mkIndex (_definition_class_name self) (_definition_kind self)
       (_validation_fn self) (_definitions self) (_definition_cache self)
       (_definition_names self) (_lazy_definitions_fn self)
       (Some batch) (_all_definitions self) (calls self)).

(** [self._all_definitions = all] *)
Definition set_all_definitions {D} (all : list D) : M D unit :=
  fun self =>
    (Ok tt,
     mkIndex (_definition_class_name self) (_definition_kind self)
       (_validation_fn self) (_definitions self) (_definition_cache self)
       (_definition_names self) (_lazy_definitions_fn self)
       (_lazy_definitions self) (Some all) (calls self)).

(** [check.invariant(condition, desc)] *)
Definition check_invariant {D} (condition : bool) (desc : string) : M D unit :=
  if condition then ret tt else raise (CheckError desc).

Fixpoint for_each {D A} (body : A -> M D unit) (l : list A) : M D unit :=
  match l with
  | [] => ret tt
  | x :: l' => body x ;;; for_each body l'
  end.

Fixpoint map_M {D A B} (f : A -> M D B) (l : list A) : M D (list B) :=
  match l with
  | [] => ret []
  | x :: l' => y <- f x ;; ys <- map_M f l' ;; ret (y :: ys)
  end.

(** ** The mapping of definitions *)

(** [definitions.get(key)]; the mapping is kept as the list of its items,
    in the order [definitions.keys()] yields them. The keys of a mapping
    are distinct; no statement below needs it. *)
Fixpoint mapping_get {V} (key : string) (items : list (string * V)) : option V :=
  match items with
  | [] => None
  | (k, v) :: rest => if String.eqb k key then Some v else mapping_get key rest
  end.

Definition mapping_keys {V} (items : list (string * V)) : list string :=
  map fst items.

(** ** Messages *)

Definition quoted (s : string) : string := "'" +:+ s +:+ "'".

(** [type(definition)] as the messages print it. The checks that print a
    type pass on an instance, so that the text of an instance is never
    printed. *)
Definition type_ {D} (class_name : string) (o : pyobj D) : string :=
  match o with
  | Inst _ => "<class " +:+ quoted class_name +:+ ">"
  | Callable _ t => t
  | Other t => t
  end.

Definition bad_definition_message (kind key class_name got : string) : string :=
  "Bad definition for " +:+ kind +:+ " " +:+ key +:+ ": must be " +:+ class_name
  +:+ " or callable, got " +:+ got.

Definition bad_constructor_type_message (kind key class_name got : string) : string :=
  "Bad constructor for " +:+ kind +:+ " " +:+ key +:+ ": must return "
  +:+ class_name +:+ ", got value of type " +:+ got.

Definition bad_constructor_name_message (kind key class_name got : string) : string :=
  "Bad constructor for " +:+ kind +:+ " " +:+ quoted key +:+ ": name in "
  +:+ class_name +:+ " does not match: got " +:+ quoted got.

Definition duplicate_message (n : string) : string :=
  "Duplicate definition found for " +:+ n.

Definition could_not_find_message (kind n : string) (found : list string) : string :=
  "Could not find " +:+ kind +:+ " " +:+ quoted n +:+ ". Found: "
  +:+ String.concat ", " (map quoted found) +:+ ".".

(** ** The methods *)

Section Methods.
Context {D : Type} `{RepositoryLevelDefinition D}.

(** [obj.name] *)
Definition attr_name (o : pyobj D) : M D string :=
  match o with
  | Inst d => ret (name d)
  | _ => raise (AttributeError "name")
  end.

(** [strict_definition == definition]: the definition class's [==] between
    two instances; a function or a foreign object equals no instance. *)
Definition py_eq (a b : pyobj D) : bool :=
  match a, b with
  | Inst x, Inst y => def_eqb x y
  | _, _ => false
  end.

(** [isinstance(definition, definition_class) or callable(definition)] *)
Definition instance_or_callable (o : pyobj D) : bool :=
  match o with
  | Other _ => false
  | _ => true
  end.

(** The loop of [__init__] (lines 39-49). *)
Fixpoint check_definitions (definition_class_name definition_kind : string)
    (items : list (string * pyobj D)) : result unit :=
  match items with
  | [] => Ok tt
  | (key, definition) :: rest =>
      if instance_or_callable definition
      then check_definitions definition_class_name definition_kind rest
      else Raise (CheckError (bad_definition_message definition_kind key
                    definition_class_name
                    (type_ definition_class_name definition)))
  end.

(** [__init__] (lines 20-69). *)
Definition __init__ (definition_class_name definition_kind : string)
    (definitions : list (string * pyobj D))
    (validation_fn : D -> result D)
    (lazy_definitions_fn : option (unit -> result (list (pyobj D))))
  : result (_CacheingDefinitionIndex D) :=
  match check_definitions definition_class_name definition_kind definitions with
  | Raise e => Raise e
  | Ok _ =>
      Ok (mkIndex definition_class_name definition_kind validation_fn
            definitions ∅ None
            (match lazy_definitions_fn with
             | Some f => f
             | None => fun _ => Ok []
             end)
            None None [])
  end.

(** [self._validation_fn(definition)] *)
Definition call_validation_fn (definition : D) : M D D :=
  log (ValidationFnCalled definition) ;;;
  validation_fn <- gets _validation_fn ;;
  lift (validation_fn definition).

(** [self._lazy_definitions_fn()] *)
Definition call_lazy_definitions_fn : M D (list (pyobj D)) :=
  log LazyDefinitionsFnCalled ;;;
  lazy_definitions_fn <- gets _lazy_definitions_fn ;;
  lift (lazy_definitions_fn tt).

(** [definition_source()], for the source registered under [key]. Calling
    what is not callable raises Python's own [TypeError]; its message here
    stands for the interpreter's. *)
Definition call_factory (key : string) (definition_source : pyobj D)
  : M D (pyobj D) :=
  match definition_source with
  | Callable call _ => log (FactoryCalled key) ;;; lift (call tt)
  | _ => class_name <- gets _definition_class_name ;;
         raise (TypeError (type_ class_name definition_source
                             +:+ " object is not callable"))
  end.

(** [_validate_and_cache_definition] (lines 145-168). It hands back the
    definition it was given, narrowed to the definition class by the first
    check; the source returns nothing and its caller goes on with the
    argument. *)
Definition _validate_and_cache_definition (definition : pyobj D)
    (definition_dict_key : string) : M D D :=
  kind <- gets _definition_kind ;;
  class_name <- gets _definition_class_name ;;
  match definition with
  | Inst d =>
      check_invariant (String.eqb (name d) definition_dict_key)
        (bad_constructor_name_message kind definition_dict_key class_name
           (name d)) ;;;
      validated <- call_validation_fn d ;;
      set_definition_cache definition_dict_key validated ;;;
      ret d
  | _ =>
      raise (CheckError (bad_constructor_type_message kind definition_dict_key
                           class_name (type_ class_name definition)))
  end.

(** The body of the loop of [_get_lazy_definitions] (line 75). *)
Definition validate_lazy_definition (definition : pyobj D) : M D unit :=
  n <- attr_name definition ;;
  _validate_and_cache_definition definition n ;;;
  ret tt.

(** [_get_lazy_definitions] (lines 71-77). *)
Definition _get_lazy_definitions : M D (list (pyobj D)) :=
  lazy_definitions <- gets _lazy_definitions ;;
  match lazy_definitions with
  | None =>
      batch <- call_lazy_definitions_fn ;;
      set_lazy_definitions batch ;;;
      for_each validate_lazy_definition batch ;;;
      ret batch
  | Some batch => ret batch
  end.

(** The loop of [get_definition_names] (lines 84-92), with [lazy_names]
    as its accumulator. An entry of the mapping is a definition or a
    function, and those are true in a condition. *)
Fixpoint collect_lazy_names (lazy_definitions : list (pyobj D))
    (lazy_names : list string) : M D (list string) :=
  match lazy_definitions with
  | [] => ret lazy_names
  | definition :: rest =>
      n <- attr_name definition ;;
      definitions <- gets _definitions ;;
      match mapping_get n definitions with
      | Some strict_definition =>
          check_invariant (py_eq strict_definition definition)
            (duplicate_message n) ;;;
          collect_lazy_names rest lazy_names
      | None => collect_lazy_names rest (lazy_names ++ [n])
      end
  end.

(** The body of [get_definition_names] below its guard (lines 83-95). *)
Definition build_definition_names : M D (list string) :=
  lazy_definitions <- _get_lazy_definitions ;;
  lazy_names <- collect_lazy_names lazy_definitions [] ;;
  definitions <- gets _definitions ;;
  log NamesBuilt ;;;
  set_definition_names (mapping_keys definitions ++ lazy_names) ;;;
  ret (mapping_keys definitions ++ lazy_names).

(** [get_definition_names] (lines 79-95). The guard is
    [if self._definition_names:], which an empty list does not pass. *)
Definition get_definition_names : M D (list string) :=
  definition_names <- gets _definition_names ;;
  match definition_names with
  | Some (n :: names) => ret (n :: names)
  | _ => build_definition_names
  end.

(** [definition_name in names] *)
Definition contains (definition_name : string) (names : list string) : bool :=
  existsb (String.eqb definition_name) names.

(** [has_definition] (lines 97-100). *)
Definition has_definition (definition_name : string) : M D bool :=
  names <- get_definition_names ;;
  ret (contains definition_name names).

(** [get_definition] (lines 114-143). *)
Definition get_definition (definition_name : string) : M D D :=
  found <- has_definition definition_name ;;
  if negb found then
    kind <- gets _definition_kind ;;
    found_names <- get_definition_names ;;
    raise (DagsterInvariantViolationError
             (could_not_find_message kind definition_name found_names))
  else
    cache <- gets _definition_cache ;;
    match cache !! definition_name with
    | Some cached => ret cached
    | None =>
        definitions <- gets _definitions ;;
        match mapping_get definition_name definitions with
        | None => raise (KeyError definition_name)
        | Some (Inst definition_source) =>
            validated <- call_validation_fn definition_source ;;
            set_definition_cache definition_name validated ;;;
            ret definition_source
        | Some definition_source =>
            definition <- call_factory definition_name definition_source ;;
            _validate_and_cache_definition definition definition_name
        end
    end.

(** [sorted(_, key=lambda definition: definition.name)]: a stable sort by
    [<] on the names; an element goes in front of the first one whose name
    is not smaller than its own. *)
Fixpoint insert_by_name (definition : D) (sorted_tail : list D) : list D :=
  match sorted_tail with
  | [] => [definition]
  | d :: rest =>
      if String.ltb (name d) (name definition)
      then d :: insert_by_name definition rest
      else definition :: d :: rest
  end.

Definition sorted_by_name (definitions : list D) : list D :=
  foldr insert_by_name [] definitions.

(** [get_all_definitions] (lines 102-112). *)
Definition get_all_definitions : M D (list D) :=
  all_definitions <- gets _all_definitions ;;
  match all_definitions with
  | Some all => ret all
  | None =>
      names <- get_definition_names ;;
      definitions <- map_M get_definition names ;;
      set_all_definitions (sorted_by_name definitions) ;;;
      ret (sorted_by_name definitions)
  end.

End Methods.

(** ** A caller's view: sequences of lookups *)

Inductive operation :=
| ListNames
| HasName (definition_name : string)
| Resolve (definition_name : string)
| GetAll.

Inductive answer (D : Type) :=
| Names (names : list string)
| Found (found : bool)
| Resolved (definition : D)
| All (definitions : list D).
Arguments Names {D} names.
Arguments Found {D} found.
Arguments Resolved {D} definition.
Arguments All {D} definitions.

Section Lookups.
Context {D : Type} `{RepositoryLevelDefinition D}.

Definition perform (op : operation) : M D (answer D) :=
  match op with
  | ListNames => names <- get_definition_names ;; ret (Names names)
  | HasName n => found <- has_definition n ;; ret (Found found)
  | Resolve n => definition <- get_definition n ;; ret (Resolved definition)
  | GetAll => definitions <- get_all_definitions ;; ret (All definitions)
  end.

(** The object after a sequence of lookups, whatever each one returned or
    raised. *)
Fixpoint perform_all (ops : list operation) (self : _CacheingDefinitionIndex D)
  : _CacheingDefinitionIndex D :=
  match ops with
  | [] => self
  | op :: rest => perform_all rest (snd (perform op self))
  end.

(** ** Vocabulary of the statements *)

Definition is_factory_call (key : string) (ev : event D) : bool :=
  match ev with
  | FactoryCalled k => String.eqb k key
  | _ => false
  end.

Definition is_any_factory_call (ev : event D) : bool :=
  match ev with
  | FactoryCalled _ => true
  | _ => false
  end.

Definition is_lazy_definitions_fn_call (ev : event D) : bool :=
  match ev with
  | LazyDefinitionsFnCalled => true
  | _ => false
  end.

Definition is_names_built (ev : event D) : bool :=
  match ev with
  | NamesBuilt => true
  | _ => false
  end.

Definition is_validation_fn_call (ev : event D) : bool :=
  match ev with
  | ValidationFnCalled _ => true
  | _ => false
  end.

Definition count (p : event D -> bool) (evs : list (event D)) : nat :=
  length (filter (fun ev => p ev = true) evs).

(** The names of the instances of a batch, in the order of the batch. *)
Fixpoint instance_names (batch : list (pyobj D)) : list string :=
  match batch with
  | [] => []
  | Inst d :: rest => name d :: instance_names rest
  | _ :: rest => instance_names rest
  end.

Definition is_instance (o : pyobj D) : bool :=
  match o with
  | Inst _ => true
  | _ => false
  end.

(** The lazy-only names: those of the batch that are no key of the mapping. *)
Definition lazy_only_names (definitions : list (string * pyobj D))
    (batch : list (pyobj D)) : list string :=
  filter (fun n => contains n (mapping_keys definitions) = false)
         (instance_names batch).

(** What the loop of [get_definition_names] computes, as a function of the
    mapping and the batch alone. *)
Fixpoint lazy_names_of (definitions : list (string * pyobj D))
    (batch : list (pyobj D)) (lazy_names : list string) : result (list string) :=
  match batch with
  | [] => Ok lazy_names
  | Inst d :: rest =>
      match mapping_get (name d) definitions with
      | Some strict_definition =>
          if py_eq strict_definition (Inst d)
          then lazy_names_of definitions rest lazy_names
          else Raise (CheckError (duplicate_message (name d)))
      | None => lazy_names_of definitions rest (lazy_names ++ [name d])
      end
  | _ :: _ => Raise (AttributeError "name")
  end.

(** The object after a call of the validation function is logged, and
    after its result is cached. *)
Definition validated (d : D) (s : _CacheingDefinitionIndex D)
  : _CacheingDefinitionIndex D :=
  snd (log (ValidationFnCalled d) s).

Definition stored (key : string) (v d : D) (s : _CacheingDefinitionIndex D)
  : _CacheingDefinitionIndex D :=
  snd (set_definition_cache key v (validated d s)).

(** The cache after a batch went through the loop of
    [_get_lazy_definitions]: a later definition of a name replaces an
    earlier one. *)
Fixpoint cache_after (validation_fn : D -> result D) (batch : list (pyobj D))
    (cache : gmap string D) : gmap string D :=
  match batch with
  | [] => cache
  | Inst d :: rest =>
      match validation_fn d with
      | Ok v => cache_after validation_fn rest (<[name d := v]> cache)
      | Raise _ => cache
      end
  | _ :: _ => cache
  end.

(** The instances of a batch, in its order. *)
Fixpoint instances (batch : list (pyobj D)) : list D :=
  match batch with
  | [] => []
  | Inst d :: rest => d :: instances rest
  | _ :: rest => instances rest
  end.

(** Every object of the batch is a definition that the validation function
    accepts. *)
Definition all_valid (validation_fn : D -> result D) (batch : list (pyobj D))
  : Prop :=
  Forall (fun o => exists d v, o = Inst d /\ validation_fn d = Ok v) batch.

(** The object once the lazy loader has returned [batch] (lines 73), and
    once the name list is stored (line 94). *)
Definition loading (batch : list (pyobj D)) (s : _CacheingDefinitionIndex D)
  : _CacheingDefinitionIndex D :=
  snd (set_lazy_definitions batch (snd (log LazyDefinitionsFnCalled s))).

Definition named (names : list string) (s : _CacheingDefinitionIndex D)
  : _CacheingDefinitionIndex D :=
  snd (set_definition_names names (snd (log NamesBuilt s))).

(** What [get_definition] does once the definition is found in the name
    list (lines 132-143). *)
Definition resolve_found (n : string) (s1 : _CacheingDefinitionIndex D)
  : result D * _CacheingDefinitionIndex D :=
  match _definition_cache s1 !! n with
  | Some cached => (Ok cached, s1)
  | None =>
      match mapping_get n (_definitions s1) with
      | None => (Raise (KeyError n), s1)
      | Some (Inst d) =>
          match _validation_fn s1 d with
          | Ok v => (Ok d, stored n v d s1)
          | Raise e => (Raise e, validated d s1)
          end
      | Some source =>
          (definition <- call_factory n source ;;
           _validate_and_cache_definition definition n) s1
      end
  end.

(** What the memo fields and the log of an index tell about each other,
    from [__init__] on: the memoized batch is what the lazy loader returned;
    the memoized name list is the one built from the mapping and that batch;
    a lazy loader that returns has been called once if its batch is
    memoized and never otherwise; a name list that is not empty has been
    built once, and none has been built while no list is memoized. *)
Definition consistent (s : _CacheingDefinitionIndex D) : Prop :=
  (forall batch, _lazy_definitions s = Some batch ->
                 _lazy_definitions_fn s tt = Ok batch) /\
  (forall names, _definition_names s = Some names ->
     exists batch lazy_names,
       _lazy_definitions s = Some batch /\
       lazy_names_of (_definitions s) batch [] = Ok lazy_names /\
       names = mapping_keys (_definitions s) ++ lazy_names) /\
  ((exists batch, _lazy_definitions_fn s tt = Ok batch) ->
   count is_lazy_definitions_fn_call (calls s)
   = match _lazy_definitions s with Some _ => 1 | None => 0 end) /\
  match _definition_names s with
  | None => count is_names_built (calls s) = 0
  | Some (_ :: _) => count is_names_built (calls s) = 1
  | Some [] => True
  end.

(** A predicate that the cache, the memoized list of all definitions and
    the calls of factories and of the validation function do not touch. *)
Definition aside (I : _CacheingDefinitionIndex D -> Prop) : Prop :=
  (forall s key d, I s -> I (snd (set_definition_cache key d s))) /\
  (forall s all, I s -> I (snd (set_all_definitions all s))) /\
  (forall s ev, is_lazy_definitions_fn_call ev = false ->
                is_names_built ev = false -> I s -> I (snd (log ev s))).

(** The order of [sorted]: by name, as Python compares strings. *)
Definition name_le (a b : D) : Prop := String.leb (name a) (name b) = true.

(** What a collaborator raises for a known, uncached name: the validation
    function on the instance of the mapping, the factory, or the validation
    function on the product of the factory. *)
Definition collaborator_raises (s : _CacheingDefinitionIndex D) (n : string)
    (e : exn) : Prop :=
  (exists d, mapping_get n (_definitions s) = Some (Inst d) /\
             _validation_fn s d = Raise e) \/
  (exists f ty, mapping_get n (_definitions s) = Some (Callable f ty) /\
             f tt = Raise e) \/
  (exists f ty d, mapping_get n (_definitions s) = Some (Callable f ty) /\
               f tt = Ok (Inst d) /\ name d = n /\
               _validation_fn s d = Raise e).

(** A non-empty name list is memoized and [key] is cached as [d]. *)
Definition settled (names : list string) (key : string) (d : D)
    (s : _CacheingDefinitionIndex D) : Prop :=
  names <> [] /\ _definition_names s = Some names /\
  _definition_cache s !! key = Some d.

(** A memoized list of all definitions is sorted. *)
Definition all_sorted (s : _CacheingDefinitionIndex D) : Prop :=
  forall all, _all_definitions s = Some all -> StronglySorted name_le all.

(** Every cached name is a key of the mapping or the name of a definition
    of the memoized batch. *)
Definition cache_named (s : _CacheingDefinitionIndex D) : Prop :=
  forall key, is_Some (_definition_cache s !! key) ->
    key ∈ mapping_keys (_definitions s) \/
    exists batch, _lazy_definitions s = Some batch /\
                  key ∈ instance_names batch.

(** [sub] occurs in [s]. *)
Definition occurs_in (sub s : string) : Prop :=
  exists before after, s = before +:+ sub +:+ after.

(** Nothing but the memo fields, the cache and the log ever changes. *)
Definition same_configuration (s s' : _CacheingDefinitionIndex D) : Prop :=
  _definition_class_name s' = _definition_class_name s /\
  _definition_kind s' = _definition_kind s /\
  _validation_fn s' = _validation_fn s /\
  _definitions s' = _definitions s /\
  _lazy_definitions_fn s' = _lazy_definitions_fn s.

(** How a method may move the object: the configuration stays, the log
    grows by events satisfying [P], memoized values stay, and a cached name
    stays cached. *)
Record moves (P : event D -> Prop) (s s' : _CacheingDefinitionIndex D) : Prop := {
  moves_configuration : same_configuration s s';
  moves_calls : exists evs, calls s' = calls s ++ evs /\ Forall P evs;
  moves_lazy_definitions :
    forall batch, _lazy_definitions s = Some batch ->
                  _lazy_definitions s' = Some batch;
  moves_all_definitions :
    forall all, _all_definitions s = Some all -> _all_definitions s' = Some all;
  moves_definition_names :
    forall n names, _definition_names s = Some (n :: names) ->
                    _definition_names s' = Some (n :: names);
  moves_definition_cache :
    forall key, is_Some (_definition_cache s !! key) ->
                is_Some (_definition_cache s' !! key)
}.

(** A method that moves the object in that way from every state. *)
Definition moving {A} (P : event D -> Prop) (m : M D A) : Prop :=
  forall s, moves P s (snd (m s)).

(** A state predicate that a method keeps. *)
Definition keeps {A} (I : _CacheingDefinitionIndex D -> Prop) (m : M D A) : Prop :=
  forall s, I s -> I (snd (m s)).

End Lookups.

(** ** A definition class and indexes to run the methods on *)

Module Sample.

Record JobDefinition := job { job_name : string; job_version : nat }.

#[export] Instance JobDefinition_level : RepositoryLevelDefinition JobDefinition :=
  {| name := job_name;
     def_eqb a b := String.eqb (job_name a) (job_name b)
                    && Nat.eqb (job_version a) (job_version b) |}.

(** Validation functions: one that returns its argument, one that returns a
    changed copy, one that rejects a given name. *)
Definition accept (d : JobDefinition) : result JobDefinition := Ok d.

Definition stamp (d : JobDefinition) : result JobDefinition :=
  Ok (job (job_name d) (S (job_version d))).

Definition reject (n : string) (d : JobDefinition) : result JobDefinition :=
  if String.eqb (job_name d) n then Raise (UserError "rejected") else Ok d.

(** A new index, as [__init__] leaves it. *)
Definition index (definitions : list (string * pyobj JobDefinition))
    (validation_fn : JobDefinition -> result JobDefinition)
    (lazy_definitions_fn : unit -> result (list (pyobj JobDefinition)))
  : _CacheingDefinitionIndex JobDefinition :=
  mkIndex "JobDefinition" "job" validation_fn definitions ∅ None
          lazy_definitions_fn None None [].

Definition job_a := job "a" 1.
Definition job_b := job "b" 2.
Definition job_c := job "c" 3.

(** The scenario of the documentation: an instance, a factory, and a lazy
    loader that finds a third definition. *)
Definition three : _CacheingDefinitionIndex JobDefinition :=
  index [("a", Inst job_a);
         ("b", Callable (fun _ => Ok (Inst job_b)) "<class 'function'>")]
        accept (fun _ => Ok [Inst job_c]).

(** A lazy loader that raises. *)
Definition unreachable : _CacheingDefinitionIndex JobDefinition :=
  index [("a", Inst job_a)] accept (fun _ => Raise (UserError "unreachable")).

(** An index of nothing. *)
Definition nothing : _CacheingDefinitionIndex JobDefinition :=
  index [] accept (fun _ => Ok []).

(** A validation function that returns a changed copy. *)
Definition stamped : _CacheingDefinitionIndex JobDefinition :=
  index [("a", Inst job_a)] stamp (fun _ => Ok []).

(** A factory registered under another name than its definition's. *)
Definition misnamed : _CacheingDefinitionIndex JobDefinition :=
  index [("b", Callable (fun _ => Ok (Inst job_a)) "<class 'function'>")]
        accept (fun _ => Ok []).

(** A lazy definition that differs from the entry under its name. *)
Definition conflicting : _CacheingDefinitionIndex JobDefinition :=
  index [("c", Inst (job "c" 9))] accept (fun _ => Ok [Inst job_c]).

(** A lazy definition that equals the entry under its name. *)
Definition agreeing : _CacheingDefinitionIndex JobDefinition :=
  index [("c", Inst job_c)] accept (fun _ => Ok [Inst job_c]).

(** The same, with a validation function that returns a changed copy. *)
Definition shadowed : _CacheingDefinitionIndex JobDefinition :=
  index [("c", Inst job_c)] stamp (fun _ => Ok [Inst job_c]).

(** A factory that returns something else than a definition: another
    callable, a [functools.partial]. *)
Definition partial_b : pyobj JobDefinition :=
  Callable (fun _ => Ok (Inst job_b)) "<class 'functools.partial'>".

Definition not_a_job : _CacheingDefinitionIndex JobDefinition :=
  index [("b", Callable (fun _ => Ok partial_b) "<class 'function'>")] accept
        (fun _ => Ok []).

(** A validation function that rejects the instance of the mapping, and
    one that rejects the lazy definition. *)
Definition refusing : _CacheingDefinitionIndex JobDefinition :=
  index [("a", Inst job_a)] (reject "a") (fun _ => Ok []).

Definition rejecting : _CacheingDefinitionIndex JobDefinition :=
  index [("a", Inst job_a)] (reject "c") (fun _ => Ok [Inst job_c]).

End Sample.

(** * Properties *)

(** ** How the monad's steps move the object *)

Section Steps.
Context {D : Type} `{RepositoryLevelDefinition D}.
Implicit Types (s : _CacheingDefinitionIndex D) (P : event D -> Prop)
  (I : _CacheingDefinitionIndex D -> Prop).

Lemma same_configuration_refl s : same_configuration s s.
Proof. by repeat split. Qed.

Lemma same_configuration_trans s1 s2 s3 :
  same_configuration s1 s2 -> same_configuration s2 s3 ->
  same_configuration s1 s3.
Proof.
  intros (a1 & a2 & a3 & a4 & a5) (b1 & b2 & b3 & b4 & b5).
  repeat split; congruence.
Qed.

Lemma moves_refl P s : moves P s s.
Proof.
  split; auto using same_configuration_refl.
  exists []. by rewrite app_nil_r.
Qed.

Lemma moves_trans P s1 s2 s3 : moves P s1 s2 -> moves P s2 s3 -> moves P s1 s3.
Proof.
  intros [c1 (e1 & q1 & f1) l1 a1 n1 k1] [c2 (e2 & q2 & f2) l2 a2 n2 k2].
  split; eauto using same_configuration_trans.
  exists (e1 ++ e2). split.
  - by rewrite q2, q1, app_assoc.
  - by apply Forall_app.
Qed.

Lemma moves_weaken P Q s s' :
  (forall ev, P ev -> Q ev) -> moves P s s' -> moves Q s s'.
Proof.
  intros PQ [c (e & q & f) l a n k]. split; auto.
  exists e. split; [done|]. eapply Forall_impl; eauto.
Qed.

Lemma moving_weaken {A} P Q (m : M D A) :
  (forall ev, P ev -> Q ev) -> moving P m -> moving Q m.
Proof. intros PQ Hm s. eapply moves_weaken; eauto. Qed.

Lemma moving_ret {A} P (a : A) : moving P (ret a).
Proof. intros s. apply moves_refl. Qed.

Lemma moving_raise {A} P e : moving P (raise (A := A) e).
Proof. intros s. apply moves_refl. Qed.

Lemma moving_gets {A} P (f : _CacheingDefinitionIndex D -> A) : moving P (gets f).
Proof. intros s. apply moves_refl. Qed.

Lemma moving_lift {A} P (r : result A) : moving P (lift r).
Proof. intros s. apply moves_refl. Qed.

Lemma moving_bind {A B} P (m : M D A) (k : A -> M D B) :
  moving P m -> (forall a, moving P (k a)) -> moving P (bind m k).
Proof.
  intros Hm Hk s. unfold bind. specialize (Hm s).
  destruct (m s) as [[a|e] s1]; simpl in *; [|done].
  eapply moves_trans; [exact Hm|apply Hk].
Qed.

Lemma moving_log P ev : P ev -> moving P (log ev).
Proof.
  intros Pev s. split; simpl; auto.
  - by repeat split.
  - exists (ev :: nil). split; [done|]. by constructor.
Qed.

Lemma moving_set_definition_cache P key d : moving P (set_definition_cache key d).
Proof.
  intros s. split; simpl; auto.
  - by repeat split.
  - exists []. by rewrite app_nil_r.
  - intros k Hk. destruct (decide (key = k)) as [->|Hne].
    + rewrite lookup_insert_eq. by eexists.
    + by rewrite lookup_insert_ne.
Qed.

Lemma moving_check_invariant P c desc : moving P (check_invariant c desc).
Proof. destruct c; [apply moving_ret|apply moving_raise]. Qed.

Lemma moving_for_each {A} P (body : A -> M D unit) l :
  (forall x, moving P (body x)) -> moving P (for_each body l).
Proof.
  intros Hb. induction l as [|x l IH]; simpl.
  - apply moving_ret.
  - apply moving_bind; auto.
Qed.

Lemma moving_map_M {A B} P (f : A -> M D B) l :
  (forall x, moving P (f x)) -> moving P (map_M f l).
Proof.
  intros Hf. induction l as [|x l IH]; simpl.
  - apply moving_ret.
  - apply moving_bind; [auto|]. intros y.
    apply moving_bind; [auto|]. intros ys. apply moving_ret.
Qed.

Lemma keeps_ret {A} I (a : A) : keeps I (ret a).
Proof. intros s Hs. exact Hs. Qed.

Lemma keeps_raise {A} I e : keeps I (raise (A := A) e).
Proof. intros s Hs. exact Hs. Qed.

Lemma keeps_gets {A} I (f : _CacheingDefinitionIndex D -> A) : keeps I (gets f).
Proof. intros s Hs. exact Hs. Qed.

Lemma keeps_lift {A} I (r : result A) : keeps I (lift r).
Proof. intros s Hs. exact Hs. Qed.

Lemma keeps_bind {A B} I (m : M D A) (k : A -> M D B) :
  keeps I m -> (forall a, keeps I (k a)) -> keeps I (bind m k).
Proof.
  intros Hm Hk s Hs. unfold bind. specialize (Hm s Hs).
  destruct (m s) as [[a|e] s1]; simpl in *; [|done].
  by apply Hk.
Qed.

Lemma keeps_check_invariant I c desc : keeps I (check_invariant (D := D) c desc).
Proof. destruct c; [apply keeps_ret|apply keeps_raise]. Qed.

Lemma keeps_for_each {A} I (body : A -> M D unit) l :
  (forall x, keeps I (body x)) -> keeps I (for_each body l).
Proof.
  intros Hb. induction l as [|x l IH]; simpl.
  - apply keeps_ret.
  - apply keeps_bind; auto.
Qed.

Lemma keeps_map_M {A B} I (f : A -> M D B) l :
  (forall x, keeps I (f x)) -> keeps I (map_M f l).
Proof.
  intros Hf. induction l as [|x l IH]; simpl.
  - apply keeps_ret.
  - apply keeps_bind; [auto|]. intros y.
    apply keeps_bind; [auto|]. intros ys. apply keeps_ret.
Qed.

End Steps.

(** ** How the methods move the object *)

(** Steps through sequenced code, leaving the calls of other methods and
    the writes to the fields as goals. *)
Ltac moving_through :=
  repeat match goal with
    | |- moving _ (bind _ _) => apply moving_bind; [|intros ?]
    | |- moving _ (ret _) => apply moving_ret
    | |- moving _ (raise _) => apply moving_raise
    | |- moving _ (gets _) => apply moving_gets
    | |- moving _ (lift _) => apply moving_lift
    | |- moving _ (check_invariant _ _) => apply moving_check_invariant
    | |- moving _ (match ?x with _ => _ end) => destruct x
    end.

Ltac keeps_through :=
  repeat match goal with
    | |- keeps _ (bind _ _) => apply keeps_bind; [|intros ?]
    | |- keeps _ (ret _) => apply keeps_ret
    | |- keeps _ (raise _) => apply keeps_raise
    | |- keeps _ (gets _) => apply keeps_gets
    | |- keeps _ (lift _) => apply keeps_lift
    | |- keeps _ (check_invariant _ _) => apply keeps_check_invariant
    | |- keeps _ (match ?x with _ => _ end) => destruct x
    end.

(** A write to a field keeps what is said of the other fields. *)
Ltac untouched :=
  let s := fresh "s" in let Hs := fresh "Hs" in intros s Hs; exact Hs.

Section Frames.
Context {D : Type} `{RepositoryLevelDefinition D}.
Implicit Types (s : _CacheingDefinitionIndex D) (P : event D -> Prop)
  (I : _CacheingDefinitionIndex D -> Prop).

Lemma moving_call_validation_fn P d :
  P (ValidationFnCalled d) -> moving P (call_validation_fn d).
Proof.
  intros Pd. unfold call_validation_fn. moving_through. by apply moving_log.
Qed.

Lemma moving_validate_and_cache P o key :
  (forall d, P (ValidationFnCalled d)) ->
  moving P (_validate_and_cache_definition o key).
Proof.
  intros Pv. unfold _validate_and_cache_definition. moving_through.
  - by apply moving_call_validation_fn.
  - apply moving_set_definition_cache.
Qed.

Lemma moving_attr_name P (o : pyobj D) : moving P (attr_name o).
Proof. unfold attr_name. moving_through. Qed.

Lemma moving_validate_batch P (batch : list (pyobj D)) :
  (forall d, P (ValidationFnCalled d)) ->
  moving P (for_each validate_lazy_definition batch).
Proof.
  intros Pv. apply moving_for_each. intros o.
  unfold validate_lazy_definition. moving_through.
  - apply moving_attr_name.
  - by apply moving_validate_and_cache.
Qed.

Lemma moving_get_lazy_definitions P :
  P LazyDefinitionsFnCalled -> (forall d, P (ValidationFnCalled d)) ->
  moving P _get_lazy_definitions.
Proof.
  intros Pl Pv s. unfold _get_lazy_definitions, bind at 1, gets at 1. simpl.
  destruct (_lazy_definitions s) as [batch|] eqn:Hlazy; [apply moves_refl|].
  unfold bind at 1, call_lazy_definitions_fn, bind at 1, log, gets, lift. simpl.
  unfold bind at 1. simpl.
  destruct (_lazy_definitions_fn s tt) as [batch|e] eqn:Hfn; simpl.
  - match goal with
    | |- moves P s (snd (?m ?s2)) =>
        apply (moves_trans P s s2);
        [|assert (moving P m) as Hm
            by (moving_through; by apply moving_validate_batch);
          exact (Hm s2)]
    end.
    split; simpl; auto.
    + by repeat split.
    + exists (LazyDefinitionsFnCalled :: nil). split; [done|]. by constructor.
    + intros b Hb. congruence.
  - by apply moving_log.
Qed.

(** The loop over the batch reads the mapping and writes nothing. *)
Lemma collect_lazy_names_pure batch lazy_names s :
  collect_lazy_names batch lazy_names s
  = (lazy_names_of (_definitions s) batch lazy_names, s).
Proof.
  revert lazy_names. induction batch as [|o batch IH]; intros lazy_names.
  - reflexivity.
  - destruct o as [d|f|t]; try reflexivity.
    simpl. unfold bind at 1. simpl. unfold bind at 1. simpl.
    destruct (mapping_get (name d) (_definitions s)) as [strict|].
    + unfold bind at 1, check_invariant.
      destruct (py_eq strict (Inst d)); simpl; [apply IH|reflexivity].
    + apply IH.
Qed.

Lemma moving_collect_lazy_names P batch lazy_names :
  moving P (collect_lazy_names batch lazy_names).
Proof. intros s. rewrite collect_lazy_names_pure. apply moves_refl. Qed.

Lemma keeps_collect_lazy_names I batch lazy_names :
  keeps I (collect_lazy_names batch lazy_names).
Proof. intros s Hs. by rewrite collect_lazy_names_pure. Qed.

(** Loading the lazy definitions leaves the two other memo fields alone. *)
Lemma keeps_names_validate_and_cache x o key :
  keeps (fun s => _definition_names s = x) (_validate_and_cache_definition o key).
Proof.
  unfold _validate_and_cache_definition, call_validation_fn.
  keeps_through; untouched.
Qed.

Lemma keeps_all_validate_and_cache x o key :
  keeps (fun s => _all_definitions s = x) (_validate_and_cache_definition o key).
Proof.
  unfold _validate_and_cache_definition, call_validation_fn.
  keeps_through; untouched.
Qed.

Lemma keeps_lazy_validate_and_cache x o key :
  keeps (fun s => _lazy_definitions s = x) (_validate_and_cache_definition o key).
Proof.
  unfold _validate_and_cache_definition, call_validation_fn.
  keeps_through; untouched.
Qed.

Lemma keeps_names_get_lazy_definitions x :
  keeps (fun s => _definition_names s = x) _get_lazy_definitions.
Proof.
  unfold _get_lazy_definitions, call_lazy_definitions_fn.
  keeps_through; try untouched.
  apply keeps_for_each. intros o. unfold validate_lazy_definition, attr_name.
  keeps_through. apply keeps_names_validate_and_cache.
Qed.

Lemma keeps_all_get_lazy_definitions x :
  keeps (fun s => _all_definitions s = x) _get_lazy_definitions.
Proof.
  unfold _get_lazy_definitions, call_lazy_definitions_fn.
  keeps_through; try untouched.
  apply keeps_for_each. intros o. unfold validate_lazy_definition, attr_name.
  keeps_through. apply keeps_all_validate_and_cache.
Qed.

Lemma keeps_all_get_definition_names x :
  keeps (fun s => _all_definitions s = x) get_definition_names.
Proof.
  unfold get_definition_names, build_definition_names.
  keeps_through; try untouched;
    auto using keeps_all_get_lazy_definitions, keeps_collect_lazy_names.
Qed.

Lemma keeps_all_get_definition x n :
  keeps (fun s => _all_definitions s = x) (get_definition n).
Proof.
  unfold get_definition, has_definition, call_validation_fn, call_factory.
  keeps_through; try untouched;
    auto using keeps_all_get_definition_names, keeps_all_validate_and_cache.
Qed.

Lemma moves_build_definition_names P s :
  P LazyDefinitionsFnCalled -> (forall d, P (ValidationFnCalled d)) ->
  P NamesBuilt ->
  (forall n names, _definition_names s <> Some (n :: names)) ->
  moves P s (snd (build_definition_names s)).
Proof.
  intros Pl Pv Pn Hnames. unfold build_definition_names, bind at 1.
  pose proof (moving_get_lazy_definitions P Pl Pv s) as Hmove.
  pose proof (keeps_names_get_lazy_definitions (_definition_names s) s eq_refl)
    as Hkeep.
  destruct (_get_lazy_definitions s) as [[batch|e] s1]; simpl in *; [|done].
  unfold bind at 1. rewrite collect_lazy_names_pure.
  destruct (lazy_names_of (_definitions s1) batch []) as [lazy_names|e];
    simpl; [|done].
  eapply moves_trans; [exact Hmove|].
  split; simpl; auto.
  - by repeat split.
  - exists (NamesBuilt :: nil). split; [done|]. by constructor.
  - intros n names Hn. rewrite Hkeep in Hn. by apply Hnames in Hn.
Qed.

Lemma moving_get_definition_names P :
  P LazyDefinitionsFnCalled -> (forall d, P (ValidationFnCalled d)) ->
  P NamesBuilt -> moving P get_definition_names.
Proof.
  intros Pl Pv Pn s. unfold get_definition_names, bind at 1, gets at 1. simpl.
  destruct (_definition_names s) as [[|n names]|] eqn:Hnames.
  - apply moves_build_definition_names; auto. congruence.
  - apply moves_refl.
  - apply moves_build_definition_names; auto. congruence.
Qed.

Lemma moving_has_definition P n :
  P LazyDefinitionsFnCalled -> (forall d, P (ValidationFnCalled d)) ->
  P NamesBuilt -> moving P (has_definition n).
Proof.
  intros Pl Pv Pn. unfold has_definition. moving_through.
  by apply moving_get_definition_names.
Qed.

Lemma moving_call_factory P key (o : pyobj D) :
  P (FactoryCalled key) -> moving P (call_factory key o).
Proof. intros Pf. unfold call_factory. moving_through. by apply moving_log. Qed.

Lemma moving_get_definition P n :
  P LazyDefinitionsFnCalled -> (forall d, P (ValidationFnCalled d)) ->
  P NamesBuilt -> P (FactoryCalled n) -> moving P (get_definition n).
Proof.
  intros Pl Pv Pn Pf. unfold get_definition. moving_through;
    auto using moving_has_definition, moving_get_definition_names,
      moving_call_validation_fn, moving_set_definition_cache,
      moving_call_factory, moving_validate_and_cache.
Qed.

Lemma keeps_all_map_get_definition x names :
  keeps (fun s => _all_definitions s = x) (map_M get_definition names).
Proof. apply keeps_map_M. intros n. apply keeps_all_get_definition. Qed.

Lemma moving_get_all_definitions P :
  (forall ev, P ev) -> moving P get_all_definitions.
Proof.
  intros Pall s. unfold get_all_definitions, bind at 1, gets at 1. simpl.
  destruct (_all_definitions s) as [all|] eqn:Hall; [apply moves_refl|].
  unfold bind at 1.
  pose proof (moving_get_definition_names P (Pall _) (fun d => Pall _) (Pall _) s)
    as Hmove1.
  pose proof (keeps_all_get_definition_names None s Hall) as Hkeep1.
  destruct (get_definition_names s) as [[names|e] s1]; simpl in *; [|done].
  unfold bind at 1.
  pose proof (moving_map_M P get_definition names
                (fun n => moving_get_definition P n (Pall _) (fun d => Pall _)
                            (Pall _) (Pall _)) s1) as Hmove2.
  pose proof (keeps_all_map_get_definition None names s1 Hkeep1) as Hkeep2.
  destruct (map_M get_definition names s1) as [[definitions|e] s2];
    simpl in *; [|by eapply moves_trans].
  eapply moves_trans; [exact Hmove1|]. eapply moves_trans; [exact Hmove2|].
  split; simpl; auto.
  - by repeat split.
  - exists []. by rewrite app_nil_r.
  - intros all Hsome. congruence.
Qed.

Lemma moving_perform op : moving (fun _ => True) (perform op).
Proof.
  destruct op; simpl; moving_through;
    auto using moving_get_definition_names, moving_has_definition,
      moving_get_definition, moving_get_all_definitions.
Qed.

Lemma moves_perform_all ops s : moves (fun _ => True) s (perform_all ops s).
Proof.
  revert s. induction ops as [|op ops IH]; intros s; simpl.
  - apply moves_refl.
  - eapply moves_trans; [apply moving_perform|apply IH].
Qed.

End Frames.

(** ** What the methods compute *)

Section Behaviour.
Context {D : Type} `{RepositoryLevelDefinition D}.
Implicit Types (s : _CacheingDefinitionIndex D) (P : event D -> Prop)
  (I : _CacheingDefinitionIndex D -> Prop).

Lemma validate_and_cache_instance d key s :
  _validate_and_cache_definition (Inst d) key s =
  if String.eqb (name d) key then
    match _validation_fn s d with
    | Ok v => (Ok d, stored key v d s)
    | Raise e => (Raise e, validated d s)
    end
  else
    (Raise (CheckError (bad_constructor_name_message (_definition_kind s) key
                          (_definition_class_name s) (name d))), s).
Proof.
  unfold _validate_and_cache_definition, bind at 1, gets at 1. simpl.
  unfold bind at 1, gets at 1. simpl. unfold bind at 1, check_invariant.
  destruct (String.eqb (name d) key); [|reflexivity]. simpl.
  unfold bind at 1, call_validation_fn, bind at 1. simpl.
  unfold bind at 1, gets, lift. simpl.
  destruct (_validation_fn s d); reflexivity.
Qed.

Lemma validate_and_cache_other (o : pyobj D) key s :
  is_instance o = false ->
  _validate_and_cache_definition o key s =
  (Raise (CheckError (bad_constructor_type_message (_definition_kind s) key
                        (_definition_class_name s)
                        (type_ (_definition_class_name s) o))), s).
Proof. destruct o; [discriminate|reflexivity..]. Qed.

Lemma validate_lazy_definition_instance d s :
  validate_lazy_definition (Inst d) s =
  match _validation_fn s d with
  | Ok v => (Ok tt, stored (name d) v d s)
  | Raise e => (Raise e, validated d s)
  end.
Proof.
  unfold validate_lazy_definition, bind at 1. simpl. unfold bind at 1.
  rewrite validate_and_cache_instance, String.eqb_refl.
  destruct (_validation_fn s d); reflexivity.
Qed.

Lemma validate_lazy_definition_other (o : pyobj D) s :
  is_instance o = false ->
  validate_lazy_definition o s = (Raise (AttributeError "name"), s).
Proof. destruct o; [discriminate|reflexivity..]. Qed.

Lemma validate_batch_ok batch s s' :
  for_each validate_lazy_definition batch s = (Ok tt, s') ->
  all_valid (_validation_fn s) batch /\
  _definition_cache s' = cache_after (_validation_fn s) batch (_definition_cache s) /\
  calls s' = calls s ++ map ValidationFnCalled (instances batch).
Proof.
  revert s. induction batch as [|o batch IH]; intros s; simpl.
  - intros [= <-]. repeat split; [constructor|by rewrite app_nil_r].
  - unfold bind at 1. destruct o as [d|f|t]; try discriminate.
    rewrite validate_lazy_definition_instance.
    destruct (_validation_fn s d) as [v|e] eqn:Hv; [|discriminate].
    intros Hrest. apply IH in Hrest as (Hall & Hcache & Hcalls).
    simpl in *. repeat split.
    + constructor; eauto.
    + done.
    + by rewrite Hcalls, <- app_assoc.
Qed.

Lemma validate_batch_succeeds batch s :
  all_valid (_validation_fn s) batch ->
  exists s', for_each validate_lazy_definition batch s = (Ok tt, s').
Proof.
  revert s. induction batch as [|o batch IH]; intros s Hall; simpl.
  - by eexists.
  - inversion Hall as [|? ? (d & v & -> & Hv) Hrest]; subst.
    unfold bind at 1. rewrite validate_lazy_definition_instance, Hv.
    apply IH. exact Hrest.
Qed.

Lemma keeps_lazy_validate_batch x (batch : list (pyobj D)) :
  keeps (fun s => _lazy_definitions s = x)
        (for_each validate_lazy_definition batch).
Proof.
  apply keeps_for_each. intros o. unfold validate_lazy_definition, attr_name.
  keeps_through. apply keeps_lazy_validate_and_cache.
Qed.

Lemma get_lazy_definitions_memo s batch :
  _lazy_definitions s = Some batch -> _get_lazy_definitions s = (Ok batch, s).
Proof.
  intros Hlazy. unfold _get_lazy_definitions, bind at 1, gets at 1. simpl.
  by rewrite Hlazy.
Qed.

Lemma get_lazy_definitions_load s :
  _lazy_definitions s = None ->
  _get_lazy_definitions s =
  match _lazy_definitions_fn s tt with
  | Ok batch =>
      match for_each validate_lazy_definition batch (loading batch s) with
      | (Ok _, s') => (Ok batch, s')
      | (Raise e, s') => (Raise e, s')
      end
  | Raise e => (Raise e, snd (log LazyDefinitionsFnCalled s))
  end.
Proof.
  intros Hlazy. unfold _get_lazy_definitions, bind at 1, gets at 1.
  cbv beta iota. rewrite Hlazy.
  unfold bind at 1, call_lazy_definitions_fn, bind at 1, log, gets, lift. simpl.
  unfold bind at 1. simpl.
  destruct (_lazy_definitions_fn s tt) as [batch|e]; [|reflexivity]. simpl.
  unfold bind, loading. simpl.
  by destruct (for_each _ _ _) as [[[]|e] s'].
Qed.

(** A successful load: either memoized before, or the loader returned the
    batch and the validation function accepted every definition of it. *)
Lemma get_lazy_definitions_ok s batch s' :
  _get_lazy_definitions s = (Ok batch, s') ->
  _lazy_definitions s' = Some batch /\
  ((_lazy_definitions s = Some batch /\ s' = s) \/
   (_lazy_definitions s = None /\
    _lazy_definitions_fn s tt = Ok batch /\
    all_valid (_validation_fn s) batch /\
    _definition_cache s'
      = cache_after (_validation_fn s) batch (_definition_cache s) /\
    calls s' = calls s ++ (LazyDefinitionsFnCalled
                             :: map ValidationFnCalled (instances batch)))).
Proof.
  destruct (_lazy_definitions s) as [memo|] eqn:Hlazy.
  - rewrite (get_lazy_definitions_memo s memo Hlazy). intros [= <- <-]. auto.
  - rewrite (get_lazy_definitions_load s Hlazy).
    destruct (_lazy_definitions_fn s tt) as [loaded|e]; [|discriminate].
    pose proof (keeps_lazy_validate_batch (Some loaded) loaded
                  (loading loaded s) eq_refl) as Hkeep.
    destruct (for_each validate_lazy_definition loaded (loading loaded s))
      as [[[]|e] s1] eqn:Hloop; intros [= <- <-].
    apply validate_batch_ok in Hloop as (Hall & Hcache & Hcalls).
    simpl in *. split; [done|right]. repeat split; try done.
    by rewrite Hcalls, <- app_assoc.
Qed.

(** A failed load: nothing was memoized before; either the loader raised
    and nothing is memoized now, or the batch is memoized and the loop
    stopped at one of its objects. *)
Lemma get_lazy_definitions_raise s e s' :
  _get_lazy_definitions s = (Raise e, s') ->
  _lazy_definitions s = None /\
  ((_lazy_definitions_fn s tt = Raise e /\
    s' = snd (log LazyDefinitionsFnCalled s)) \/
   (exists batch evs,
      _lazy_definitions_fn s tt = Ok batch /\
      _lazy_definitions s' = Some batch /\
      ~ all_valid (_validation_fn s) batch /\
      calls s' = calls s ++ (LazyDefinitionsFnCalled :: evs) /\
      Forall (fun ev => is_validation_fn_call ev = true) evs)).
Proof.
  destruct (_lazy_definitions s) as [memo|] eqn:Hlazy.
  - by rewrite (get_lazy_definitions_memo s memo Hlazy).
  - rewrite (get_lazy_definitions_load s Hlazy). intros Hrun.
    split; [done|]. revert Hrun.
    destruct (_lazy_definitions_fn s tt) as [loaded|e']; [|intros [= <- <-]; auto].
    pose proof (keeps_lazy_validate_batch (Some loaded) loaded
                  (loading loaded s) eq_refl) as Hkeep.
    pose proof (moving_validate_batch
                  (fun ev => is_validation_fn_call ev = true) loaded
                  (fun _ => eq_refl) (loading loaded s)) as Hmove.
    destruct (for_each validate_lazy_definition loaded (loading loaded s))
      as [[[]|e'] s1] eqn:Hloop; intros [= <- <-].
    destruct Hmove as [_ (evs & Hevs & Hvalidation) _ _ _ _].
    simpl in Hkeep, Hevs.
    right. exists loaded, evs. split; [done|]. split; [done|].
    split; [|split; [|done]].
    + intros Hall.
      destruct (validate_batch_succeeds loaded (loading loaded s) Hall)
        as [s2 Hs2].
      congruence.
    + by rewrite Hevs, <- app_assoc.
Qed.

Lemma get_definition_names_memo s n names :
  _definition_names s = Some (n :: names) ->
  get_definition_names s = (Ok (n :: names), s).
Proof.
  intros Hnames. unfold get_definition_names, bind at 1, gets at 1.
  cbv beta iota. by rewrite Hnames.
Qed.

Lemma get_definition_names_build s :
  (forall n names, _definition_names s <> Some (n :: names)) ->
  get_definition_names s = build_definition_names s.
Proof.
  intros Hnames. unfold get_definition_names, bind at 1, gets at 1.
  cbv beta iota. destruct (_definition_names s) as [[|n names]|]; try done.
  by destruct (Hnames n names).
Qed.

Lemma build_definition_names_run s :
  build_definition_names s =
  match _get_lazy_definitions s with
  | (Ok batch, s1) =>
      match lazy_names_of (_definitions s1) batch [] with
      | Ok lazy_names =>
          (Ok (mapping_keys (_definitions s1) ++ lazy_names),
           named (mapping_keys (_definitions s1) ++ lazy_names) s1)
      | Raise e => (Raise e, s1)
      end
  | (Raise e, s1) => (Raise e, s1)
  end.
Proof.
  unfold build_definition_names, bind at 1.
  destruct (_get_lazy_definitions s) as [[batch|e] s1]; [|reflexivity].
  unfold bind at 1. rewrite collect_lazy_names_pure.
  destruct (lazy_names_of (_definitions s1) batch []); reflexivity.
Qed.

(** A successful listing: the list is memoized now; it was memoized before
    (and not empty), or it has just been built from the loaded batch. *)
Lemma get_definition_names_ok s names s' :
  get_definition_names s = (Ok names, s') ->
  _definition_names s' = Some names /\
  ((names <> [] /\ _definition_names s = Some names /\ s' = s) \/
   (exists batch lazy_names s1,
      (forall n l, _definition_names s <> Some (n :: l)) /\
      _get_lazy_definitions s = (Ok batch, s1) /\
      lazy_names_of (_definitions s) batch [] = Ok lazy_names /\
      names = mapping_keys (_definitions s) ++ lazy_names /\
      s' = named names s1)).
Proof.
  destruct (_definition_names s) as [[|n l]|] eqn:Hnames.
  2:{ rewrite (get_definition_names_memo s n l Hnames). intros [= <- <-].
      split; [done|left]. done. }
  all: rewrite get_definition_names_build, build_definition_names_run
         by congruence.
  all: pose proof (moving_get_lazy_definitions (fun _ => True) I (fun _ => I) s)
         as Hmove.
  all: destruct (_get_lazy_definitions s) as [[batch|e] s1]; [|discriminate].
  all: destruct Hmove as [(_ & _ & _ & Hdefs & _) _ _ _ _ _]; simpl in Hdefs.
  all: rewrite Hdefs.
  all: destruct (lazy_names_of (_definitions s) batch []) as [lazy_names|e]
         eqn:Hloop; intros [= <- <-].
  all: split; [done|right]; exists batch, lazy_names, s1.
  all: repeat split; congruence.
Qed.

(** A failed listing memoizes no list. *)
Lemma get_definition_names_raise s e s' :
  get_definition_names s = (Raise e, s') ->
  _definition_names s' = _definition_names s /\
  (forall n l, _definition_names s <> Some (n :: l)).
Proof.
  destruct (_definition_names s) as [[|n l]|] eqn:Hnames.
  2:{ by rewrite (get_definition_names_memo s n l Hnames). }
  all: rewrite get_definition_names_build, build_definition_names_run
         by congruence.
  all: pose proof (keeps_names_get_lazy_definitions _ s Hnames) as Hkeep.
  all: destruct (_get_lazy_definitions s) as [[batch|e1] s1]; simpl in Hkeep.
  all: try destruct (lazy_names_of (_definitions s1) batch []) as [lazy_names|e2].
  all: intros [= <- <-]; split; congruence.
Qed.

Lemma has_definition_run n s :
  has_definition n s =
  match get_definition_names s with
  | (Ok names, s1) => (Ok (contains n names), s1)
  | (Raise e, s1) => (Raise e, s1)
  end.
Proof.
  unfold has_definition, bind.
  by destruct (get_definition_names s) as [[names|e] s1].
Qed.

Lemma get_definition_run n s :
  get_definition n s =
  match get_definition_names s with
  | (Ok names, s1) =>
      if contains n names then resolve_found n s1
      else
        match get_definition_names s1 with
        | (Ok found_names, s2) =>
            (Raise (DagsterInvariantViolationError
                      (could_not_find_message (_definition_kind s1) n
                         found_names)), s2)
        | (Raise e, s2) => (Raise e, s2)
        end
  | (Raise e, s1) => (Raise e, s1)
  end.
Proof.
  unfold get_definition, bind at 1. rewrite has_definition_run.
  destruct (get_definition_names s) as [[names|e] s1]; [|reflexivity].
  destruct (contains n names); simpl.
  - unfold resolve_found, bind at 1, gets at 1. cbv beta iota.
    destruct (_definition_cache s1 !! n) as [cached|]; [reflexivity|].
    unfold bind at 1, gets at 1. cbv beta iota.
    destruct (mapping_get n (_definitions s1)) as [[d|f|t]|]; reflexivity.
  - unfold bind at 1, gets at 1. cbv beta iota. unfold bind at 1.
    by destruct (get_definition_names s1) as [[found|e] s2].
Qed.

End Behaviour.

(** * The claims *)

Section Claims.
Context {D : Type} `{RepositoryLevelDefinition D}.
Implicit Types (s : _CacheingDefinitionIndex D).

Lemma contains_elem_of n (names : list string) :
  contains n names = true <-> n ∈ names.
Proof.
  unfold contains. rewrite existsb_exists. split.
  - intros (x & Hin & Heq). apply String.eqb_eq in Heq as ->.
    by apply list_elem_of_In.
  - intros Hin. exists n. split; [by apply list_elem_of_In|].
    apply String.eqb_refl.
Qed.

(** C10: listing the names, or asking whether a name is known, calls no
    factory of the mapping: every call that [get_definition_names] or
    [has_definition] adds to the log is a call of the lazy loader or of the
    validation function, or the building of the list. *)
Theorem listing_calls_no_factory s n :
  (exists evs, calls (snd (get_definition_names s)) = calls s ++ evs /\
               Forall (fun ev => is_any_factory_call ev = false) evs) /\
  (exists evs, calls (snd (has_definition n s)) = calls s ++ evs /\
               Forall (fun ev => is_any_factory_call ev = false) evs).
Proof.
  split.
  - by apply (moving_get_definition_names
                (fun ev => is_any_factory_call ev = false)).
  - by apply (moving_has_definition
                (fun ev => is_any_factory_call ev = false)).
Qed.

(** Listing the names again gives the same list; a list that is not empty
    is served from the memo field and nothing moves. *)
Lemma get_definition_names_again s names s1 :
  get_definition_names s = (Ok names, s1) ->
  exists s2, get_definition_names s1 = (Ok names, s2) /\
             (names <> [] -> s2 = s1).
Proof.
  intros Hrun.
  destruct (get_definition_names_ok s names s1 Hrun) as [Hmemo Hcases].
  destruct names as [|n l].
  - destruct Hcases as [(Hne & _)|(batch & lazy_names & s0 & _ & Hlazy & Hloop
                                     & Hnames & ->)]; [done|].
    apply get_lazy_definitions_ok in Hlazy as Hloaded.
    destruct Hloaded as [Hloaded _].
    pose proof (moving_get_lazy_definitions (fun _ => True) I (fun _ => I) s)
      as Hmove.
    rewrite Hlazy in Hmove.
    destruct Hmove as [(_ & _ & _ & Hdefs & _) _ _ _ _ _]; simpl in Hdefs.
    rewrite get_definition_names_build, build_definition_names_run
      by (rewrite Hmemo; congruence).
    rewrite (get_lazy_definitions_memo (named [] s0) batch) by exact Hloaded.
    change (_definitions (named [] s0)) with (_definitions s0).
    rewrite Hdefs, Hloop, <- Hnames. eexists. split; [reflexivity|done].
  - exists s1. split; [|done]. by apply get_definition_names_memo.
Qed.

Lemma append_assoc (a b c : string) : (a +:+ b) +:+ c = a +:+ (b +:+ c).
Proof.
  induction a as [|ch a IH]; [reflexivity|].
  change (String ch ((a +:+ b) +:+ c) = String ch (a +:+ (b +:+ c))).
  by rewrite IH.
Qed.

Lemma append_empty_r (a : string) : a +:+ EmptyString = a.
Proof.
  induction a as [|ch a IH]; [reflexivity|].
  change (String ch (a +:+ EmptyString) = String ch a). by rewrite IH.
Qed.

Lemma occurs_in_refl (a : string) : occurs_in a a.
Proof.
  exists EmptyString, EmptyString. rewrite append_empty_r. reflexivity.
Qed.

Lemma occurs_in_append_l (sub a b : string) :
  occurs_in sub a -> occurs_in sub (a +:+ b).
Proof.
  intros (before & after & ->). exists before, (after +:+ b).
  by rewrite !append_assoc.
Qed.

Lemma occurs_in_append_r (sub a b : string) :
  occurs_in sub b -> occurs_in sub (a +:+ b).
Proof.
  intros (before & after & ->). exists (a +:+ before), after.
  by rewrite !append_assoc.
Qed.

Lemma occurs_in_concat (sep x : string) (l : list string) :
  x ∈ l -> occurs_in x (String.concat sep l).
Proof.
  induction l as [|y l IH]; [by intros ?%elem_of_nil|].
  intros [->|Hin]%elem_of_cons.
  - destruct l; simpl; [apply occurs_in_refl|].
    apply occurs_in_append_l, occurs_in_refl.
  - destruct l as [|z l]; [by apply elem_of_nil in Hin|].
    change (occurs_in x (y +:+ sep +:+ String.concat sep (z :: l))).
    by apply occurs_in_append_r, occurs_in_append_r, IH.
Qed.

Lemma could_not_find_message_names kind n found k :
  k ∈ found -> occurs_in (quoted k) (could_not_find_message kind n found).
Proof.
  intros Hin. unfold could_not_find_message.
  do 5 apply occurs_in_append_r. apply occurs_in_append_l.
  apply occurs_in_concat. by apply list_elem_of_In, in_map, list_elem_of_In.
Qed.

(** C6: when the name list is [names] and [n] is not in it,
    [get_definition n] raises [DagsterInvariantViolationError] with the
    message "Could not find {kind} '{n}'. Found: " followed by the names of
    [names], each between single quotes, in the order of the list and
    separated by ", ", and a full stop; so that every name of [names]
    occurs in the message, between single quotes. *)
Theorem get_definition_not_found s n names s1 :
  get_definition_names s = (Ok names, s1) ->
  contains n names = false ->
  let message :=
    "Could not find " +:+ _definition_kind s +:+ " " +:+ ("'" +:+ n +:+ "'")
    +:+ ". Found: "
    +:+ String.concat ", " (map (fun k => "'" +:+ k +:+ "'") names) +:+ "." in
  (exists s2,
     get_definition n s = (Raise (DagsterInvariantViolationError message), s2)) /\
  (forall k, k ∈ names -> occurs_in ("'" +:+ k +:+ "'") message).
Proof.
  intros Hrun Hmissing message.
  assert (message = could_not_find_message (_definition_kind s) n names)
    as -> by reflexivity.
  split; [|by intros; apply could_not_find_message_names].
  rewrite get_definition_run, Hrun, Hmissing.
  destruct (get_definition_names_again s names s1 Hrun) as (s2 & -> & _).
  pose proof (moving_get_definition_names (fun _ => True) I (fun _ => I) I s)
    as Hmove.
  rewrite Hrun in Hmove.
  destruct Hmove as [(_ & Hkind & _) _ _ _ _ _]. simpl in Hkind.
  rewrite Hkind. by exists s2.
Qed.

Lemma has_definition_ok n s found s1 :
  has_definition n s = (Ok found, s1) ->
  exists names, get_definition_names s = (Ok names, s1) /\
                found = contains n names.
Proof.
  rewrite has_definition_run.
  destruct (get_definition_names s) as [[names|e] s0]; intros [= <- <-].
  by exists names.
Qed.

Lemma get_definition_found n s names s1 :
  get_definition_names s = (Ok names, s1) -> contains n names = true ->
  get_definition n s = resolve_found n s1.
Proof. intros Hrun Hfound. by rewrite get_definition_run, Hrun, Hfound. Qed.

(** The configuration after the names were listed. *)
Lemma get_definition_names_configuration s r s1 :
  get_definition_names s = (r, s1) -> same_configuration s s1.
Proof.
  intros Hrun.
  pose proof (moving_get_definition_names (fun _ => True) I (fun _ => I) I s)
    as Hmove.
  rewrite Hrun in Hmove. by destruct Hmove.
Qed.

(** C3, as the code has it: "nothing cached yet" is what the cache lookup
    of line 132 finds, after the check of the name at line 117, which loads
    the lazy definitions and caches them when they were not loaded. When
    the name is known, nothing is cached for it at that point, and the
    mapping holds an instance under it, [get_definition] calls the
    validation function on that instance, stores what the validation
    function returned in the cache under the name, and returns the
    instance of the mapping itself. *)
Theorem get_definition_instance_returns_source s n s1 d v :
  has_definition n s = (Ok true, s1) ->
  _definition_cache s1 !! n = None ->
  mapping_get n (_definitions s) = Some (Inst d) ->
  _validation_fn s d = Ok v ->
  exists s2, get_definition n s = (Ok d, s2) /\
             _definition_cache s2 = <[n := v]> (_definition_cache s1) /\
             _definition_cache s2 !! n = Some v.
Proof.
  intros (names & Hrun & Hfound)%has_definition_ok Hcache Hsource Hvalid.
  destruct (get_definition_names_configuration s _ s1 Hrun)
    as (_ & _ & Hfn & Hdefs & _).
  rewrite (get_definition_found n s names s1 Hrun) by done.
  unfold resolve_found. rewrite Hcache, Hdefs, Hsource, Hfn, Hvalid.
  eexists. split; [reflexivity|]. simpl. split; [done|].
  apply lookup_insert_eq.
Qed.

(** C5: when the name is known, nothing is cached for it once the name list
    is there, and the mapping holds under it a factory whose definition has
    another name, [get_definition] raises the [CheckError] of the name
    check ("name in ... does not match"), and the cache is as it was after
    the name list was there: it has no entry for the name. *)
Theorem get_definition_factory_name_mismatch s n s1 f ty d :
  has_definition n s = (Ok true, s1) ->
  _definition_cache s1 !! n = None ->
  mapping_get n (_definitions s) = Some (Callable f ty) ->
  f tt = Ok (Inst d) ->
  name d <> n ->
  exists s2,
    get_definition n s
    = (Raise (CheckError (bad_constructor_name_message (_definition_kind s) n
                            (_definition_class_name s) (name d))), s2) /\
    _definition_cache s2 = _definition_cache s1 /\
    _definition_cache s2 !! n = None.
Proof.
  intros (names & Hrun & Hfound)%has_definition_ok Hcache Hsource Hmade Hname.
  destruct (get_definition_names_configuration s _ s1 Hrun)
    as (Hclass & Hkind & _ & Hdefs & _).
  rewrite (get_definition_found n s names s1 Hrun) by done.
  unfold resolve_found. rewrite Hcache, Hdefs, Hsource.
  unfold bind at 1, call_factory, bind at 1, log, lift. simpl. rewrite Hmade.
  rewrite validate_and_cache_instance.
  apply String.eqb_neq in Hname. rewrite Hname. simpl.
  rewrite Hclass, Hkind. eexists. split; [reflexivity|]. by simpl.
Qed.

Lemma count_app (p : event D -> bool) (evs1 evs2 : list (event D)) :
  count p (evs1 ++ evs2) = count p evs1 + count p evs2.
Proof. unfold count. by rewrite filter_app, length_app. Qed.

Lemma count_cons (p : event D -> bool) ev (evs : list (event D)) :
  count p (ev :: evs) = (if p ev then 1 else 0) + count p evs.
Proof.
  unfold count. rewrite filter_cons.
  destruct (p ev); by destruct (decide _).
Qed.

Lemma count_none (p : event D -> bool) (evs : list (event D)) :
  Forall (fun ev => p ev = false) evs -> count p evs = 0.
Proof.
  unfold count. induction 1 as [|ev evs Hev _ IH]; [done|].
  rewrite filter_cons_False; [done|]. by rewrite Hev.
Qed.

Lemma no_factory_call_counts key (evs : list (event D)) :
  Forall (fun ev => is_any_factory_call ev = false) evs ->
  count (is_factory_call key) evs = 0.
Proof.
  intros Hnone. apply count_none. eapply Forall_impl; [exact Hnone|].
  by intros [].
Qed.

(** A lookup that found the name and returned: what it returned, what is
    cached, and what it called. *)
Lemma resolve_found_ok n s1 d s2 :
  resolve_found n s1 = (Ok d, s2) ->
  _definition_names s2 = _definition_names s1 /\
  (exists d', _definition_cache s2 !! n = Some d' /\
              (d' = d \/ _validation_fn s1 d = Ok d')) /\
  (exists evs, calls s2 = calls s1 ++ evs /\
               count (is_factory_call n) evs <= 1).
Proof.
  unfold resolve_found.
  destruct (_definition_cache s1 !! n) as [cached|] eqn:Hcache.
  { intros [= <- <-]. repeat split; [eauto|].
    exists []. rewrite app_nil_r. split; [done|]. unfold count. simpl. lia. }
  destruct (mapping_get n (_definitions s1)) as [[source|f|t]|]; [| | |done].
  - destruct (_validation_fn s1 source) as [v|e] eqn:Hvalid; intros [= <- <-].
    simpl. repeat split.
    + exists v. rewrite lookup_insert_eq. auto.
    + eexists. split; [reflexivity|]. rewrite count_cons. unfold count.
      simpl. lia.
  - unfold bind at 1, call_factory, bind at 1, log, lift. simpl.
    destruct (f tt) as [[made|g|t]|e]; try discriminate.
    rewrite validate_and_cache_instance.
    destruct (String.eqb (name made) n); [|discriminate].
    simpl. destruct (_validation_fn s1 made) as [v|e] eqn:Hvalid;
      intros [= <- <-].
    simpl. repeat split.
    + exists v. rewrite lookup_insert_eq. auto.
    + rewrite <- app_assoc. eexists. split; [reflexivity|].
      simpl. rewrite !count_cons. simpl. rewrite String.eqb_refl.
      unfold count. simpl. lia.
  - unfold bind at 1, call_factory, bind at 1. simpl. discriminate.
Qed.

Lemma settled_get_definition_names names key d :
  keeps (settled names key d) get_definition_names.
Proof.
  intros s (Hne & Hnames & Hcache). destruct names as [|n0 l]; [done|].
  by rewrite (get_definition_names_memo s n0 l Hnames).
Qed.

Lemma settled_resolve_found names key d n s :
  settled names key d s -> settled names key d (snd (resolve_found n s)).
Proof.
  intros (Hne & Hnames & Hcache). unfold resolve_found.
  destruct (_definition_cache s !! n) as [cached|] eqn:Hn; [done|].
  assert (n <> key) as Hkey by congruence.
  destruct (mapping_get n (_definitions s)) as [[source|f|t]|]; try done.
  - destruct (_validation_fn s source); [|done]. simpl.
    repeat split; try done. simpl. by rewrite lookup_insert_ne.
  - unfold bind at 1, call_factory, bind at 1, log, lift. simpl.
    destruct (f tt) as [[made|g|t]|e]; try done.
    rewrite validate_and_cache_instance.
    destruct (String.eqb (name made) n); [|done]. simpl.
    destruct (_validation_fn s made); [|done]. simpl.
    repeat split; try done. simpl. by rewrite lookup_insert_ne.
Qed.

Lemma settled_get_definition names key d n :
  keeps (settled names key d) (get_definition n).
Proof.
  intros s Hs. pose proof Hs as (Hne & Hnames & Hcache).
  destruct names as [|n0 l]; [done|].
  rewrite get_definition_run, (get_definition_names_memo s n0 l Hnames).
  destruct (contains n (n0 :: l)); [by apply settled_resolve_found|].
  by rewrite (get_definition_names_memo s n0 l Hnames).
Qed.

Lemma settled_perform names key d op : keeps (settled names key d) (perform op).
Proof.
  destruct op; simpl; keeps_through.
  - apply settled_get_definition_names.
  - unfold has_definition. keeps_through. apply settled_get_definition_names.
  - apply settled_get_definition.
  - unfold get_all_definitions. keeps_through.
    + apply settled_get_definition_names.
    + apply keeps_map_M. intros n. apply settled_get_definition.
    + intros s Hs. exact Hs.
Qed.

Lemma settled_perform_all names key d ops s :
  settled names key d s -> settled names key d (perform_all ops s).
Proof.
  revert s. induction ops as [|op ops IH]; intros s Hs; simpl; [done|].
  by apply IH, settled_perform.
Qed.

(** On a settled object [get_definition] of the settled name changes
    nothing. *)
Lemma settled_get_definition_same names n d s :
  settled names n d s -> snd (get_definition n s) = s.
Proof.
  intros (Hne & Hnames & Hcache). destruct names as [|n0 l]; [done|].
  rewrite get_definition_run, (get_definition_names_memo s n0 l Hnames).
  destruct (contains n (n0 :: l)).
  - unfold resolve_found. by rewrite Hcache.
  - by rewrite (get_definition_names_memo s n0 l Hnames).
Qed.

(** Once a name is settled, its factory is not called any more. *)
Lemma quiet_get_definition_names names n d c :
  keeps (fun s => settled names n d s /\
                  count (is_factory_call n) (calls s) = c)
        get_definition_names.
Proof.
  intros s [Hs Hc]. pose proof Hs as (Hne & Hnames & _).
  destruct names as [|n0 l]; [done|].
  by rewrite (get_definition_names_memo s n0 l Hnames).
Qed.

Lemma quiet_get_definition names n d c m :
  keeps (fun s => settled names n d s /\
                  count (is_factory_call n) (calls s) = c)
        (get_definition m).
Proof.
  intros s [Hs Hc]. split; [by apply settled_get_definition|].
  destruct (decide (m = n)) as [->|Hne].
  - by rewrite (settled_get_definition_same names n d s Hs).
  - destruct (moving_get_definition
                (fun ev => is_factory_call n ev = false) m)
      with (s := s) as [_ (evs & Hevs & Hnone) _ _ _ _]; try done.
    { simpl. by apply String.eqb_neq. }
    rewrite Hevs, count_app, (count_none _ evs) by done. lia.
Qed.

Lemma quiet_perform names n d c op :
  keeps (fun s => settled names n d s /\
                  count (is_factory_call n) (calls s) = c)
        (perform op).
Proof.
  destruct op; simpl; keeps_through.
  - apply quiet_get_definition_names.
  - unfold has_definition. keeps_through. apply quiet_get_definition_names.
  - apply quiet_get_definition.
  - unfold get_all_definitions. keeps_through.
    + apply quiet_get_definition_names.
    + apply keeps_map_M. intros m. apply quiet_get_definition.
    + intros s Hs. exact Hs.
Qed.

Lemma quiet_perform_all names n d ops s :
  settled names n d s ->
  count (is_factory_call n) (calls (perform_all ops s))
  = count (is_factory_call n) (calls s).
Proof.
  intros Hs. remember (count (is_factory_call n) (calls s)) as c eqn:Hc.
  assert (settled names n d s /\
          count (is_factory_call n) (calls s) = c) as Hstart by (by subst).
  clear Hc Hs. revert s Hstart.
  induction ops as [|op ops IH]; intros s Hstart; simpl.
  - by destruct Hstart.
  - apply IH. by apply quiet_perform.
Qed.

(** C1, as the code has it: after [get_definition n] has returned, the name
    is in the cache; a second [get_definition n] returns the cached
    definition and leaves the object as it is, log included, so it calls
    nothing; the first call has called the factory of [n] at most once, and
    no lookup after it, whichever and however many, calls that factory
    again. The cached definition is the one the first call returned, or
    what the validation function made of it; so the two calls return the
    same definition when the validation function returns the first one
    unchanged. *)
Theorem get_definition_again_from_cache s n d s1 :
  get_definition n s = (Ok d, s1) ->
  exists d',
    _definition_cache s1 !! n = Some d' /\
    get_definition n s1 = (Ok d', s1) /\
    (d' = d \/ _validation_fn s d = Ok d') /\
    (_validation_fn s d = Ok d -> d' = d) /\
    (exists evs, calls s1 = calls s ++ evs /\
                 count (is_factory_call n) evs <= 1) /\
    (forall ops,
       count (is_factory_call n) (calls (perform_all ops s1))
       = count (is_factory_call n) (calls s1)).
Proof.
  rewrite get_definition_run.
  pose proof (moving_get_definition_names
                (fun ev => is_any_factory_call ev = false) eq_refl
                (fun _ => eq_refl) eq_refl s) as [_ (evs0 & Hcalls0 & Hnone) _ _ _ _].
  destruct (get_definition_names s) as [[names|e] s0] eqn:Hrun; [|done].
  destruct (contains n names) eqn:Hfound.
  2:{ by destruct (get_definition_names s0) as [[found|e] s2]. }
  intros Hresolve.
  destruct (get_definition_names_configuration s _ s0 Hrun)
    as (_ & _ & Hfn & _).
  destruct (get_definition_names_ok s names s0 Hrun) as [Hmemo _].
  destruct (resolve_found_ok n s0 d s1 Hresolve)
    as (Hnames & (d' & Hcached & Horigin) & evs & Hcalls & Hcount).
  assert (settled names n d' s1) as Hsettled.
  { repeat split; [by destruct names|congruence|done]. }
  exists d'. split; [done|]. split; [|split; [|split; [|split]]].
  - destruct names as [|n0 l]; [done|].
    rewrite (get_definition_found n s1 (n0 :: l) s1); [|by apply
      get_definition_names_memo; congruence|done].
    unfold resolve_found. by rewrite Hcached.
  - by rewrite <- Hfn.
  - rewrite <- Hfn. intros Hsame. destruct Horigin as [-> | Hmade]; congruence.
  - exists (evs0 ++ evs). simpl in Hcalls0. split.
    + by rewrite Hcalls, Hcalls0, app_assoc.
    + rewrite count_app, (no_factory_call_counts n evs0) by done. lia.
  - intros ops. by apply (quiet_perform_all names n d').
Qed.

End Claims.

(** ** What stays true from [__init__] on *)

Section Invariant.
Context {D : Type} `{RepositoryLevelDefinition D}.
Implicit Types (s : _CacheingDefinitionIndex D)
  (I : _CacheingDefinitionIndex D -> Prop).

Lemma count_snoc (p : event D -> bool) (evs : list (event D)) ev :
  count p (evs ++ [ev]) = count p evs + (if p ev then 1 else 0).
Proof. rewrite count_app, count_cons. unfold count. simpl. lia. Qed.

Lemma init_run class_name kind definitions validation_fn lazy_fn s0 :
  __init__ (D := D) class_name kind definitions validation_fn lazy_fn = Ok s0 ->
  s0 = mkIndex class_name kind validation_fn definitions ∅ None
         (match lazy_fn with Some f => f | None => fun _ => Ok [] end)
         None None [].
Proof.
  unfold __init__. destruct (check_definitions _ _ _); [|discriminate].
  by intros [= <-].
Qed.

Lemma init_consistent class_name kind definitions validation_fn lazy_fn s0 :
  __init__ (D := D) class_name kind definitions validation_fn lazy_fn = Ok s0 ->
  consistent s0.
Proof. intros ->%init_run. by repeat split. Qed.

Lemma validation_calls_only (batch : list D) :
  Forall (fun ev : event D => is_lazy_definitions_fn_call ev = false /\
                              is_names_built ev = false)
         (map ValidationFnCalled batch).
Proof. induction batch; constructor; auto. Qed.

Lemma consistent_get_lazy_definitions : keeps consistent _get_lazy_definitions.
Proof.
  intros s (Hlazy & Hnames & Hcalls & Hbuilt).
  destruct (_lazy_definitions s) as [memo|] eqn:Hmemo.
  { rewrite (get_lazy_definitions_memo s memo Hmemo). simpl.
    unfold consistent. by rewrite Hmemo. }
  assert (_definition_names s = None) as Hnone.
  { destruct (_definition_names s) as [names|]; [|done].
    by destruct (Hnames names eq_refl) as (? & ? & ? & _). }
  rewrite Hnone in Hbuilt.
  pose proof (moving_get_lazy_definitions
                (fun ev => is_names_built ev = false) eq_refl
                (fun _ => eq_refl) s) as Hmove.
  pose proof (keeps_names_get_lazy_definitions None s Hnone) as Hkeep.
  destruct (_get_lazy_definitions s) as [[batch|e] s1] eqn:Hrun; simpl in *.
  - apply get_lazy_definitions_ok in Hrun
      as (Hloaded & [(? & _)|(_ & Hfn & _ & _ & Hlog)]); [congruence|].
    destruct Hmove as [(_ & _ & _ & Hdefs & Hsame) (evs & Hevs & Hnb) _ _ _ _].
    unfold consistent. rewrite Hloaded, Hkeep, Hsame, Hdefs.
    repeat split; [congruence|done| |].
    + intros Hreturns. rewrite Hlog, count_app, count_cons, Hcalls by done.
      rewrite count_none; [done|].
      eapply Forall_impl; [apply validation_calls_only|]. by intros ? [].
    + rewrite Hevs, count_app, Hbuilt. by apply count_none.
  - apply get_lazy_definitions_raise in Hrun
      as (_ & [(Hfn & ->)|(batch & vs & Hfn & Hloaded & _ & Hlog & Hvalidation)]).
    + unfold consistent. simpl. rewrite Hmemo, Hnone.
      repeat split; [done|done| |].
      * intros [batch Hbatch]. congruence.
      * by rewrite count_snoc, Hbuilt.
    + destruct Hmove as [(_ & _ & _ & Hdefs & Hsame) (evs & Hevs & Hnb) _ _ _ _].
      unfold consistent. rewrite Hloaded, Hkeep, Hsame, Hdefs.
      repeat split; [congruence|done| |].
      * intros Hreturns. rewrite Hlog, count_app, count_cons, Hcalls by done.
        rewrite count_none; [done|].
        eapply Forall_impl; [exact Hvalidation|]. by intros [].
      * rewrite Hevs, count_app, Hbuilt. by apply count_none.
Qed.

Lemma consistent_get_definition_names : keeps consistent get_definition_names.
Proof.
  intros s Hs.
  destruct (_definition_names s) as [[|n l]|] eqn:Hmemo.
  2:{ by rewrite (get_definition_names_memo s n l Hmemo). }
  all: rewrite get_definition_names_build, build_definition_names_run
         by congruence.
  all: pose proof (consistent_get_lazy_definitions s Hs) as Hs1.
  all: pose proof (keeps_names_get_lazy_definitions _ s Hmemo) as Hkeep.
  all: destruct (_get_lazy_definitions s) as [[batch|e] s1] eqn:Hrun;
         simpl in *; [|done].
  all: destruct (lazy_names_of (_definitions s1) batch []) as [lazy_names|e]
         eqn:Hloop; simpl; [|done].
  all: apply get_lazy_definitions_ok in Hrun as (Hloaded & Horigin).
  all: destruct Hs1 as (Hlazy1 & Hnames1 & Hcalls1 & Hbuilt1).
  all: unfold consistent; simpl.
  all: repeat split; [done| | |].
  all: try (intros names [= <-]; by exists batch, lazy_names).
  all: try (intros Hreturns; by rewrite count_snoc, Hcalls1, Nat.add_0_r).
  - destruct (Hnames1 [] Hkeep) as (batch' & lazy_names' & Hb & Hl & Hn).
    assert (batch' = batch) as -> by congruence.
    assert (lazy_names' = lazy_names) as -> by congruence.
    by rewrite <- Hn.
  - rewrite Hkeep in Hbuilt1.
    destruct (mapping_keys (_definitions s1) ++ lazy_names); [done|].
    by rewrite count_snoc, Hbuilt1.
Qed.

Lemma consistent_aside : aside consistent.
Proof.
  split; [|split].
  - intros s key d Hs. exact Hs.
  - intros s all Hs. exact Hs.
  - intros s ev Hev1 Hev2 (Hlazy & Hnames & Hcalls & Hbuilt).
    unfold consistent. simpl. rewrite !count_snoc, Hev1, Hev2, !Nat.add_0_r.
    done.
Qed.

Lemma keeps_validate_and_cache I o key :
  aside I -> keeps I (_validate_and_cache_definition o key).
Proof.
  intros (Hcache & _ & Hlog).
  unfold _validate_and_cache_definition, call_validation_fn. keeps_through.
  - intros s. by apply Hlog.
  - intros s. apply Hcache.
Qed.

Lemma keeps_has_definition I n :
  keeps I get_definition_names -> keeps I (has_definition n).
Proof. intros Hnames. unfold has_definition. by keeps_through. Qed.

Lemma keeps_get_definition I n :
  aside I -> keeps I get_definition_names -> keeps I (get_definition n).
Proof.
  intros Haside Hnames. pose proof Haside as (Hcache & _ & Hlog).
  unfold get_definition, call_validation_fn, call_factory. keeps_through;
    auto using keeps_has_definition, keeps_validate_and_cache.
  - intros s. by apply Hlog.
  - intros s. apply Hcache.
  - intros s. by apply Hlog.
Qed.

Lemma keeps_get_all_definitions I :
  aside I -> keeps I get_definition_names -> keeps I get_all_definitions.
Proof.
  intros Haside Hnames. pose proof Haside as (_ & Hall & _).
  unfold get_all_definitions. keeps_through; auto.
  - apply keeps_map_M. intros n. by apply keeps_get_definition.
  - intros s. apply Hall.
Qed.

Lemma keeps_perform I op :
  aside I -> keeps I get_definition_names -> keeps I (perform op).
Proof.
  intros Haside Hnames. destruct op; simpl; keeps_through;
    auto using keeps_has_definition, keeps_get_definition,
      keeps_get_all_definitions.
Qed.

Lemma keeps_perform_all I ops s :
  aside I -> keeps I get_definition_names -> I s -> I (perform_all ops s).
Proof.
  intros Haside Hnames. revert s.
  induction ops as [|op ops IH]; intros s Hs; simpl; [done|].
  apply IH. by apply keeps_perform.
Qed.

(** Whatever was looked up since [__init__], the object is consistent. *)
Lemma consistent_perform_all class_name kind definitions validation_fn
    lazy_fn s0 ops :
  __init__ (D := D) class_name kind definitions validation_fn lazy_fn = Ok s0 ->
  consistent (perform_all ops s0).
Proof.
  intros Hinit. apply keeps_perform_all;
    eauto using consistent_aside, consistent_get_definition_names,
      init_consistent.
Qed.

End Invariant.

(** * The claims about an index from [__init__] on *)

Section ClaimsFromInit.
Context {D : Type} `{RepositoryLevelDefinition D}.
Implicit Types (s : _CacheingDefinitionIndex D).

Lemma perform_all_configuration ops s : same_configuration s (perform_all ops s).
Proof. by destruct (moves_perform_all ops s). Qed.

(** C8, as the code has it: from [__init__] on and whatever is looked up,
    a lazy loader that returns its batch is called at most once. *)
Theorem lazy_definitions_fn_called_at_most_once class_name kind definitions
    validation_fn lazy_fn s0 batch ops :
  __init__ class_name kind definitions validation_fn lazy_fn = Ok s0 ->
  _lazy_definitions_fn s0 tt = Ok batch ->
  count is_lazy_definitions_fn_call (calls (perform_all ops s0)) <= 1.
Proof.
  intros Hinit Hreturns.
  destruct (consistent_perform_all _ _ _ _ _ s0 ops Hinit)
    as (_ & _ & Hcalls & _).
  destruct (perform_all_configuration ops s0) as (_ & _ & _ & _ & Hfn).
  rewrite Hcalls by (exists batch; by rewrite Hfn).
  destruct (_lazy_definitions (perform_all ops s0)); lia.
Qed.

Lemma mapping_get_none {V} n (items : list (string * V)) :
  mapping_get n items = None <-> contains n (mapping_keys items) = false.
Proof.
  induction items as [|[k v] items IH]; simpl; [done|].
  rewrite (String.eqb_sym n k). destruct (String.eqb k n); simpl; [done|].
  exact IH.
Qed.

Lemma mapping_get_some {V} n (items : list (string * V)) v :
  mapping_get n items = Some v -> contains n (mapping_keys items) = true.
Proof.
  intros Hget. destruct (contains n (mapping_keys items)) eqn:Hc; [done|].
  apply mapping_get_none in Hc. congruence.
Qed.

(** The loop of [get_definition_names] returns the lazy-only names, in the
    order of the batch, when it returns. *)
Lemma lazy_names_of_ok definitions batch lazy_names names :
  lazy_names_of definitions batch lazy_names = Ok names ->
  names = lazy_names ++ lazy_only_names definitions batch.
Proof.
  revert lazy_names. unfold lazy_only_names.
  induction batch as [|[d|f|t] batch IH]; intros lazy_names; simpl; try done.
  - intros [= <-]. by rewrite app_nil_r.
  - destruct (mapping_get (name d) definitions) as [strict|] eqn:Hget.
    + destruct (py_eq strict (Inst d)); [|done]. intros Hrest%IH.
      rewrite filter_cons_False; [done|].
      by rewrite (mapping_get_some _ _ _ Hget).
    + intros Hrest%IH. apply mapping_get_none in Hget.
      rewrite filter_cons_True by done. by rewrite Hrest, <- app_assoc.
Qed.

(** On a consistent object whose lazy loader returns a batch of valid
    definitions that the loop accepts, the names are listed. *)
Lemma get_definition_names_succeeds s batch lazy_names :
  consistent s ->
  _lazy_definitions_fn s tt = Ok batch ->
  all_valid (_validation_fn s) batch ->
  lazy_names_of (_definitions s) batch [] = Ok lazy_names ->
  exists s1, get_definition_names s
             = (Ok (mapping_keys (_definitions s) ++ lazy_names), s1).
Proof.
  intros (Hlazy & Hnames & _) Hfn Hvalid Hloop.
  assert (exists s1, _get_lazy_definitions s = (Ok batch, s1) /\
                     _definitions s1 = _definitions s) as (s1 & Hrun & Hdefs).
  { destruct (_lazy_definitions s) as [memo|] eqn:Hmemo.
    - exists s. rewrite (get_lazy_definitions_memo s memo Hmemo).
      specialize (Hlazy memo eq_refl). split; [congruence|done].
    - rewrite (get_lazy_definitions_load s Hmemo), Hfn.
      destruct (validate_batch_succeeds batch (loading batch s) Hvalid)
        as [s1 Hs1].
      exists s1. rewrite Hs1. split; [done|].
      pose proof (moving_validate_batch (fun _ => True) batch (fun _ => I)
                    (loading batch s)) as Hmove.
      rewrite Hs1 in Hmove.
      by destruct Hmove as [(_ & _ & _ & Hdefs & _) _ _ _ _ _]. }
  destruct (_definition_names s) as [[|n l]|] eqn:Hmemo.
  2:{ rewrite (get_definition_names_memo s n l Hmemo). exists s.
      destruct (Hnames _ eq_refl) as (batch' & lazy_names' & Hb & Hl & ->).
      specialize (Hlazy _ Hb). repeat f_equal. congruence. }
  all: rewrite get_definition_names_build, build_definition_names_run, Hrun
         by congruence.
  all: rewrite Hdefs, Hloop; by eexists.
Qed.

(** C2: from [__init__] on and whatever was looked up before, a name list
    that [get_definition_names] returns is the keys of the mapping, in
    their order, followed by the names of the lazy loader's batch that are
    no key of the mapping, in the order of the batch; and when there is no
    lazy loader, or it returns an empty batch, [get_definition_names]
    returns, and returns the keys of the mapping. *)
Theorem get_definition_names_lists class_name kind definitions validation_fn
    lazy_fn s0 :
  __init__ class_name kind definitions validation_fn lazy_fn = Ok s0 ->
  (forall ops names s1,
     get_definition_names (perform_all ops s0) = (Ok names, s1) ->
     exists batch,
       _lazy_definitions_fn s0 tt = Ok batch /\
       names = mapping_keys definitions ++ lazy_only_names definitions batch) /\
  (lazy_fn = None \/ (exists f, lazy_fn = Some f /\ f tt = Ok []) ->
   forall ops, exists s1,
     get_definition_names (perform_all ops s0)
     = (Ok (mapping_keys definitions), s1)).
Proof.
  intros Hinit. pose proof (init_run _ _ _ _ _ _ Hinit) as Hs0. split.
  - intros ops names s1 Hrun.
    pose proof (consistent_perform_all _ _ _ _ _ s0 ops Hinit) as Hs.
    pose proof (consistent_get_definition_names _ Hs) as Hs1.
    rewrite Hrun in Hs1. simpl in Hs1.
    destruct (get_definition_names_ok _ _ _ Hrun) as [Hmemo _].
    destruct Hs1 as (Hlazy & Hnames & _).
    destruct (Hnames _ Hmemo) as (batch & lazy_names & Hb & Hl & ->).
    pose proof (get_definition_names_configuration _ _ _ Hrun)
      as (_ & _ & _ & Hdefs1 & Hfn1).
    destruct (perform_all_configuration ops s0) as (_ & _ & _ & Hdefs & Hfn).
    exists batch. split.
    + rewrite <- Hfn, <- Hfn1. by apply Hlazy.
    + rewrite Hdefs1, Hdefs in *. apply lazy_names_of_ok in Hl as ->.
      by rewrite Hs0.
  - intros Hempty ops.
    pose proof (consistent_perform_all _ _ _ _ _ s0 ops Hinit) as Hs.
    destruct (perform_all_configuration ops s0) as (_ & _ & _ & Hdefs & Hfn).
    destruct (get_definition_names_succeeds (perform_all ops s0) [] [] Hs)
      as [s1 Hs1].
    + rewrite Hfn, Hs0. simpl.
      by destruct Hempty as [->|(f & -> & Hf)].
    + constructor.
    + done.
    + exists s1. rewrite Hs1, app_nil_r, Hdefs, Hs0. done.
Qed.

Lemma get_all_definitions_memo s all :
  _all_definitions s = Some all -> get_all_definitions s = (Ok all, s).
Proof.
  intros Hall. unfold get_all_definitions, bind at 1, gets at 1.
  cbv beta iota. by rewrite Hall.
Qed.

Lemma get_all_definitions_run s :
  _all_definitions s = None ->
  get_all_definitions s =
  match get_definition_names s with
  | (Ok names, s1) =>
      match map_M get_definition names s1 with
      | (Ok definitions, s2) =>
          (Ok (sorted_by_name definitions),
           snd (set_all_definitions (sorted_by_name definitions) s2))
      | (Raise e, s2) => (Raise e, s2)
      end
  | (Raise e, s1) => (Raise e, s1)
  end.
Proof.
  intros Hall. unfold get_all_definitions, bind at 1, gets at 1.
  cbv beta iota. rewrite Hall. unfold bind at 1.
  destruct (get_definition_names s) as [[names|e] s1]; [|done].
  unfold bind at 1.
  by destruct (map_M get_definition names s1) as [[definitions|e] s2].
Qed.

(** When the names cannot be listed, no lookup gets further. *)
Lemma perform_without_names op s e s1 :
  get_definition_names s = (Raise e, s1) ->
  _all_definitions s = None ->
  perform op s = (Raise e, s1).
Proof.
  intros Hrun Hall. destruct op; simpl; unfold bind at 1.
  - by rewrite Hrun.
  - by rewrite has_definition_run, Hrun.
  - by rewrite get_definition_run, Hrun.
  - by rewrite get_all_definitions_run, Hrun.
Qed.

(** The loop of [get_definition_names] over a batch of instances: it raises
    at the first definition that differs from the entry of the mapping
    under its name, and returns if there is none. *)
Lemma lazy_names_of_conflict definitions batch lazy_names :
  Forall (fun o => is_instance o = true) batch ->
  (exists d strict, Inst d ∈ batch /\
                    mapping_get (name d) definitions = Some strict /\
                    py_eq strict (Inst d) = false) ->
  exists d strict,
    Inst d ∈ batch /\ mapping_get (name d) definitions = Some strict /\
    py_eq strict (Inst d) = false /\
    lazy_names_of definitions batch lazy_names
    = Raise (CheckError (duplicate_message (name d))).
Proof.
  intros Hinst. revert lazy_names.
  induction Hinst as [|o batch Ho _ IH]; intros lazy_names
    (d & strict & Hin & Hget & Hne).
  { by apply elem_of_nil in Hin. }
  destruct o as [d0|f|t]; try discriminate. simpl.
  destruct (mapping_get (name d0) definitions) as [strict0|] eqn:Hget0.
  - destruct (py_eq strict0 (Inst d0)) eqn:Heq0.
    + apply elem_of_cons in Hin as [[= ->]|Hin]; [congruence|].
      destruct (IH lazy_names) as (d1 & strict1 & Hin1 & Hget1 & Hne1 & Hrun);
        [by eauto|].
      exists d1, strict1. repeat split; try done. by apply list_elem_of_further.
    + exists d0, strict0. repeat split; try done. apply list_elem_of_here.
  - apply elem_of_cons in Hin as [[= ->]|Hin]; [congruence|].
    destruct (IH (lazy_names ++ [name d0]))
      as (d1 & strict1 & Hin1 & Hget1 & Hne1 & Hrun); [by eauto|].
    exists d1, strict1. repeat split; try done. by apply list_elem_of_further.
Qed.

Lemma lazy_names_of_agree definitions batch lazy_names :
  Forall (fun o => is_instance o = true) batch ->
  (forall d strict, Inst d ∈ batch ->
                    mapping_get (name d) definitions = Some strict ->
                    py_eq strict (Inst d) = true) ->
  exists names, lazy_names_of definitions batch lazy_names = Ok names.
Proof.
  intros Hinst. revert lazy_names.
  induction Hinst as [|o batch Ho _ IH]; intros lazy_names Hagree; simpl.
  { by eexists. }
  destruct o as [d|f|t]; try discriminate.
  destruct (mapping_get (name d) definitions) as [strict|] eqn:Hget.
  - rewrite (Hagree d strict) by (done || apply list_elem_of_here).
    apply IH. intros d' strict' Hin. apply Hagree. by apply list_elem_of_further.
  - apply IH. intros d' strict' Hin. apply Hagree. by apply list_elem_of_further.
Qed.

Lemma all_valid_instances (validation_fn : D -> result D)
    (batch : list (pyobj D)) :
  all_valid validation_fn batch -> Forall (fun o => is_instance o = true) batch.
Proof.
  intros Hall. eapply Forall_impl; [exact Hall|].
  by intros o (d & v & -> & _).
Qed.

(** The loop of [_get_lazy_definitions] removes nothing from the cache. *)
Lemma cache_after_keeps (validation_fn : D -> result D)
    (batch : list (pyobj D)) (cache : gmap string D) key :
  is_Some (cache !! key) ->
  is_Some (cache_after validation_fn batch cache !! key).
Proof.
  revert cache.
  induction batch as [|[d|f|t] batch IH]; intros cache Hkey; simpl; try done.
  destruct (validation_fn d) as [v|]; [|done]. apply IH.
  destruct (decide (name d = key)) as [->|Hne].
  - rewrite lookup_insert_eq. by eexists.
  - by rewrite lookup_insert_ne.
Qed.

(** A valid batch leaves each of its names in the cache. *)
Lemma cache_after_cached (validation_fn : D -> result D)
    (batch : list (pyobj D)) (cache : gmap string D) d :
  all_valid validation_fn batch ->
  Inst d ∈ batch ->
  is_Some (cache_after validation_fn batch cache !! name d).
Proof.
  intros Hall. revert cache.
  induction Hall as [|o batch (d0 & v & -> & Hv) _ IH]; intros cache Hin.
  { by apply elem_of_nil in Hin. }
  simpl. rewrite Hv.
  apply elem_of_cons in Hin as [[= ->]|Hin]; [|by apply IH].
  apply cache_after_keeps. rewrite lookup_insert_eq. by eexists.
Qed.

(** Once the batch is memoized and the loop of [get_definition_names]
    raises on it, every lookup raises the same and leaves the object as it
    is. *)
Lemma perform_stuck s batch e op :
  _lazy_definitions s = Some batch ->
  lazy_names_of (_definitions s) batch [] = Raise e ->
  (forall n l, _definition_names s <> Some (n :: l)) ->
  _all_definitions s = None ->
  perform op s = (Raise e, s).
Proof.
  intros Hlazy Hloop Hnames Hall. apply perform_without_names; [|done].
  rewrite get_definition_names_build, build_definition_names_run by done.
  by rewrite (get_lazy_definitions_memo s batch Hlazy), Hloop.
Qed.

Lemma perform_all_stuck s batch e ops :
  _lazy_definitions s = Some batch ->
  lazy_names_of (_definitions s) batch [] = Raise e ->
  (forall n l, _definition_names s <> Some (n :: l)) ->
  _all_definitions s = None ->
  perform_all ops s = s.
Proof.
  intros Hlazy Hloop Hnames Hall. induction ops as [|op ops IH]; simpl; [done|].
  by rewrite (perform_stuck s batch e op).
Qed.

Lemma instance_names_elem_of (batch : list (pyobj D)) d :
  Inst d ∈ batch -> name d ∈ instance_names batch.
Proof.
  induction batch as [|o batch IH]; [by intros ?%elem_of_nil|].
  intros [<-|Hin]%elem_of_cons; simpl.
  - apply list_elem_of_here.
  - destruct o; auto. by apply list_elem_of_further, IH.
Qed.

Lemma contains_names_of_batch (definitions : list (string * pyobj D)) batch d :
  Inst d ∈ batch ->
  contains (name d)
    (mapping_keys definitions ++ lazy_only_names definitions batch) = true.
Proof.
  intros Hin. apply contains_elem_of, elem_of_app.
  destruct (contains (name d) (mapping_keys definitions)) eqn:Hkey.
  - left. by apply contains_elem_of.
  - right. unfold lazy_only_names. apply list_elem_of_filter.
    split; [done|]. by apply instance_names_elem_of.
Qed.

(** C4: take an index from [__init__] whose lazy loader returns a batch of
    definitions that the validation function accepts. If a definition of
    the batch differs from the entry of the mapping under its name, the
    first lookup, whichever it is, raises the [CheckError] "Duplicate
    definition found for" such a name, and so does every lookup after it,
    the object staying as the first one left it. If every definition of
    the batch whose name is a key of the mapping equals the entry under
    it, [get_definition] returns for every name of the batch. *)
Theorem lazy_definition_under_a_key class_name kind definitions validation_fn
    lazy_fn s0 batch :
  __init__ class_name kind definitions validation_fn lazy_fn = Ok s0 ->
  _lazy_definitions_fn s0 tt = Ok batch ->
  all_valid validation_fn batch ->
  ((exists d strict, Inst d ∈ batch /\
                     mapping_get (name d) definitions = Some strict /\
                     py_eq strict (Inst d) = false) ->
   exists d strict s1,
     Inst d ∈ batch /\ mapping_get (name d) definitions = Some strict /\
     py_eq strict (Inst d) = false /\
     (forall op, perform op s0
                 = (Raise (CheckError (duplicate_message (name d))), s1)) /\
     (forall ops op, perform op (perform_all ops s1)
                     = (Raise (CheckError (duplicate_message (name d))), s1))) /\
  ((forall d strict, Inst d ∈ batch ->
                     mapping_get (name d) definitions = Some strict ->
                     py_eq strict (Inst d) = true) ->
   forall d, Inst d ∈ batch ->
             exists d' s1, get_definition (name d) s0 = (Ok d', s1)).
Proof.
  intros Hinit Hfn Hvalid.
  pose proof (init_consistent _ _ _ _ _ _ Hinit) as Hs0.
  pose proof (all_valid_instances _ _ Hvalid) as Hinst.
  apply init_run in Hinit. split.
  - intros Hconflict.
    destruct (lazy_names_of_conflict definitions batch [] Hinst Hconflict)
      as (d & strict & Hin & Hget & Hne & Hloop).
    assert (_lazy_definitions s0 = None) as Hlazy0 by by subst.
    assert (exists s1, _get_lazy_definitions s0 = (Ok batch, s1))
      as [s1 Hrun].
    { rewrite (get_lazy_definitions_load s0 Hlazy0), Hfn.
      destruct (validate_batch_succeeds batch (loading batch s0))
        as [s1 ->]; [by subst|]. by eexists. }
    pose proof (moving_get_lazy_definitions (fun _ => True) I (fun _ => I) s0)
      as [(_ & _ & _ & Hdefs & _) _ _ _ _ _].
    pose proof (keeps_names_get_lazy_definitions None s0) as Hnames.
    pose proof (keeps_all_get_lazy_definitions None s0) as Hall.
    rewrite Hrun in Hdefs, Hnames, Hall. simpl in *.
    apply get_lazy_definitions_ok in Hrun as Hloaded.
    destruct Hloaded as [Hloaded _].
    assert (_definitions s1 = definitions) as Hdefs1 by (by subst).
    assert (forall n l, _definition_names s1 <> Some (n :: l)) as Hnames1.
    { rewrite Hnames by (by subst). done. }
    assert (_all_definitions s1 = None) as Hall1 by (apply Hall; by subst).
    rewrite <- Hdefs1 in Hloop.
    exists d, strict, s1. repeat split; try done.
    + intros op. apply perform_without_names; [|by subst].
      rewrite get_definition_names_build, build_definition_names_run, Hrun
        by (subst; done).
      by rewrite Hloop.
    + intros ops op.
      rewrite (perform_all_stuck s1 batch _ ops Hloaded Hloop Hnames1 Hall1).
      apply (perform_stuck s1 batch _ op Hloaded Hloop Hnames1 Hall1).
  - intros Hagree d Hin.
    destruct (lazy_names_of_agree definitions batch [] Hinst Hagree)
      as [lazy_names Hloop].
    assert (_definitions s0 = definitions) as Hdefs0 by (by subst).
    assert (_validation_fn s0 = validation_fn) as Hfn0 by (by subst).
    destruct (get_definition_names_succeeds s0 batch lazy_names Hs0 Hfn)
      as [s1 Hrun]; [by rewrite Hfn0|by rewrite Hdefs0|].
    assert (contains (name d) (mapping_keys (_definitions s0) ++ lazy_names)
            = true) as Hfound.
    { apply lazy_names_of_ok in Hloop as ->. rewrite Hdefs0.
      by apply contains_names_of_batch. }
    rewrite (get_definition_found _ _ _ _ Hrun Hfound).
    destruct (get_definition_names_ok _ _ _ Hrun)
      as [_ [(_ & Hmemo & _)|(batch' & lazy_names' & s' & _ & Hload & _ & _ & ->)]].
    { by subst. }
    apply get_lazy_definitions_ok in Hload
      as [_ [(Hmemo & _)|(_ & Hfn' & _ & Hcache & _)]]; [by subst|].
    assert (batch' = batch) as -> by congruence.
    unfold resolve_found.
    destruct (cache_after_cached validation_fn batch ∅ d Hvalid Hin)
      as [cached Hcached].
    change (_definition_cache (named (mapping_keys (_definitions s0)
                                        ++ lazy_names) s'))
      with (_definition_cache s').
    rewrite Hcache, Hfn0. subst s0. simpl. rewrite Hcached. by eexists _, _.
Qed.

End ClaimsFromInit.

(** ** Sorting by name *)

Section Sorting.
Context {D : Type} `{RepositoryLevelDefinition D}.

Lemma string_ltb_lt (a b : string) :
  String.ltb a b = true <-> OrderedTypeEx.String_as_OT.lt a b.
Proof.
  rewrite <- OrderedTypeEx.String_as_OT.cmp_lt.
  unfold String.ltb, OrderedTypeEx.String_as_OT.cmp.
  by destruct (String.compare a b).
Qed.

Lemma string_leb_cases (a b : string) :
  String.leb a b = true <-> String.ltb a b = true \/ a = b.
Proof.
  unfold String.leb, String.ltb.
  destruct (String.compare a b) eqn:Hcmp; split; try done.
  - intros _. right. by apply String.compare_eq_iff.
  - by left.
  - intros [? | ->]; [done|].
    assert (String.compare b b = Eq) as Hrefl
      by by apply OrderedTypeEx.String_as_OT.cmp_eq.
    congruence.
Qed.

Lemma string_leb_trans (a b c : string) :
  String.leb a b = true -> String.leb b c = true -> String.leb a c = true.
Proof.
  rewrite !string_leb_cases, !string_ltb_lt.
  intros [Hab | ->] [Hbc | ->]; auto.
  left. by eapply OrderedTypeEx.String_as_OT.lt_trans.
Qed.

Lemma string_ltb_leb (a b : string) : String.ltb a b = true -> String.leb a b = true.
Proof. rewrite string_leb_cases. auto. Qed.

Lemma string_not_ltb_leb (a b : string) :
  String.ltb a b = false -> String.leb b a = true.
Proof.
  unfold String.ltb, String.leb. rewrite (String.compare_antisym b a).
  by destruct (String.compare a b).
Qed.

Lemma name_le_trans (a b c : D) : name_le a b -> name_le b c -> name_le a c.
Proof. apply string_leb_trans. Qed.

Lemma insert_by_name_permutation (d : D) l :
  Permutation (d :: l) (insert_by_name d l).
Proof.
  induction l as [|x l IH]; simpl; [done|].
  destruct (String.ltb (name x) (name d)); [|done].
  rewrite <- IH. apply perm_swap.
Qed.

Lemma sorted_by_name_permutation (l : list D) : Permutation l (sorted_by_name l).
Proof.
  induction l as [|d l IH]; simpl; [done|].
  rewrite <- insert_by_name_permutation. by constructor.
Qed.

Lemma insert_by_name_sorted (d : D) l :
  StronglySorted name_le l -> StronglySorted name_le (insert_by_name d l).
Proof.
  induction 1 as [|x l Hsorted IH Hx]; simpl.
  { repeat constructor. }
  destruct (String.ltb (name x) (name d)) eqn:Hlt.
  - constructor; [done|].
    rewrite <- insert_by_name_permutation. constructor; [|done].
    by apply string_ltb_leb.
  - apply string_not_ltb_leb in Hlt.
    constructor; [by constructor|]. constructor; [done|].
    eapply Forall_impl; [exact Hx|]. intros y Hy. by eapply name_le_trans.
Qed.

Lemma sorted_by_name_sorted (l : list D) : StronglySorted name_le (sorted_by_name l).
Proof.
  induction l as [|d l IH]; simpl; [constructor|].
  by apply insert_by_name_sorted.
Qed.

End Sorting.

(** * The claims about [get_all_definitions] and the memo of the names *)

Section ClaimsAll.
Context {D : Type} `{RepositoryLevelDefinition D}.
Implicit Types (s : _CacheingDefinitionIndex D).

Lemma map_M_each {A B} (f : A -> M D B) l s ys s' :
  map_M f l s = (Ok ys, s') ->
  Forall2 (fun x y => exists sa sb, f x sa = (Ok y, sb)) l ys.
Proof.
  revert s ys. induction l as [|x l IH]; intros s ys; simpl.
  - intros [= <- <-]. constructor.
  - unfold bind at 1. destruct (f x s) as [[y|e] s1] eqn:Hx; [|done].
    unfold bind at 1. destruct (map_M f l s1) as [[ys'|e] s2] eqn:Hl; [|done].
    intros [= <- <-]. constructor; eauto.
Qed.

(** C7: when no list is memoized yet and [get_all_definitions] returns, what
    it returns is sorted by name; it is a rearrangement of what
    [get_definition] returned for the names of the name list, one after
    the other; and a second [get_all_definitions] returns the same list
    and leaves the object as it is, log included. *)
Theorem get_all_definitions_sorted_and_memoized s all s1 :
  _all_definitions s = None ->
  get_all_definitions s = (Ok all, s1) ->
  StronglySorted name_le all /\
  (exists names s' definitions s'',
     get_definition_names s = (Ok names, s') /\
     map_M get_definition names s' = (Ok definitions, s'') /\
     Forall2 (fun n d => exists sa sb, get_definition n sa = (Ok d, sb))
             names definitions /\
     Permutation definitions all) /\
  get_all_definitions s1 = (Ok all, s1).
Proof.
  intros Hnone. rewrite (get_all_definitions_run s Hnone).
  destruct (get_definition_names s) as [[names|e] s'] eqn:Hnames; [|done].
  destruct (map_M get_definition names s') as [[definitions|e] s''] eqn:Hmap;
    intros [= <- <-].
  split; [apply sorted_by_name_sorted|]. split.
  - exists names, s', definitions, s''. repeat split; try done.
    + by eapply map_M_each.
    + apply sorted_by_name_permutation.
  - by apply get_all_definitions_memo.
Qed.

(** C9, where the code departs from it: the name list of an index of
    nothing is empty; the first [get_definition_names] memoizes it, and the
    second one builds it again. *)
Theorem empty_name_list_is_built_again class_name kind validation_fn :
  let s0 := mkIndex (D := D) class_name kind validation_fn [] ∅ None
              (fun _ => Ok []) None None [] in
  __init__ class_name kind [] validation_fn None = Ok s0 /\
  get_definition_names s0 = (Ok [], named [] (loading [] s0)) /\
  _definition_names (named [] (loading [] s0)) = Some [] /\
  get_definition_names (named [] (loading [] s0))
  = (Ok [], named [] (named [] (loading [] s0))) /\
  count is_names_built (calls (perform_all [ListNames; ListNames] s0)) = 2.
Proof. by repeat split. Qed.

End ClaimsAll.

(** * The claims on the sample indexes *)

Section Samples.
Import Sample.

(** C1, as it is stated, fails twice over. With a validation function that
    returns a changed copy, the first [get_definition] returns the instance
    of the mapping and the second one the copy, and [==] tells them apart.
    With a factory whose definition fails the name check, nothing is
    cached, and each of two [get_definition] calls the factory. *)
Lemma get_definition_twice_differs :
  (fst (get_definition "a" stamped) = Ok (job "a" 1) /\
   fst (get_definition "a" (snd (get_definition "a" stamped))) = Ok (job "a" 2) /\
   def_eqb (job "a" 1) (job "a" 2) = false) /\
  (fst (get_definition_names misnamed) = Ok ["b"] /\
   count (is_factory_call "b")
         (calls (perform_all [Resolve "b"; Resolve "b"] misnamed)) = 2).
Proof. by vm_compute. Qed.

Lemma get_definition_again_from_cache_witness :
  exists d',
    _definition_cache (snd (get_definition "a" stamped)) !! "a" = Some d' /\
    get_definition "a" (snd (get_definition "a" stamped))
    = (Ok d', snd (get_definition "a" stamped)) /\
    (d' = job_a \/ _validation_fn stamped job_a = Ok d') /\
    (_validation_fn stamped job_a = Ok job_a -> d' = job_a) /\
    (exists evs,
       calls (snd (get_definition "a" stamped)) = calls stamped ++ evs /\
       count (is_factory_call "a") evs <= 1) /\
    (forall ops,
       count (is_factory_call "a")
             (calls (perform_all ops (snd (get_definition "a" stamped))))
       = count (is_factory_call "a")
               (calls (snd (get_definition "a" stamped)))).
Proof.
  refine (get_definition_again_from_cache stamped "a" job_a
            (snd (get_definition "a" stamped)) _).
  vm_compute; reflexivity.
Defined.

Lemma get_definition_names_lists_witness :
  (forall ops names s1,
     get_definition_names (perform_all ops three) = (Ok names, s1) ->
     exists batch,
       _lazy_definitions_fn three tt = Ok batch /\
       names = mapping_keys (_definitions three)
               ++ lazy_only_names (_definitions three) batch) /\
  (Some (_lazy_definitions_fn three) = None \/
   (exists f, Some (_lazy_definitions_fn three) = Some f /\ f tt = Ok []) ->
   forall ops, exists s1,
     get_definition_names (perform_all ops three)
     = (Ok (mapping_keys (_definitions three)), s1)).
Proof.
  refine (get_definition_names_lists "JobDefinition" "job"
            (_definitions three) accept (Some (_lazy_definitions_fn three))
            three _).
  vm_compute; reflexivity.
Defined.

(** C3, as it is stated, fails: the mapping holds an instance under "c"
    and nothing is cached when [get_definition] is called, but the lazy
    batch holds an equal definition of that name; the check of the name
    loads the batch and caches what the validation function made of that
    definition, and [get_definition] returns the cached copy, not the
    instance of the mapping. The index is the one [__init__] makes. *)
Lemma get_definition_instance_shadowed :
  __init__ "JobDefinition" "job" [("c", Inst job_c)] stamp
           (Some (fun _ => Ok [Inst job_c])) = Ok shadowed /\
  _definition_cache shadowed !! "c" = None /\
  mapping_get "c" (_definitions shadowed) = Some (Inst job_c) /\
  fst (get_definition_names shadowed) = Ok ["c"] /\
  fst (get_definition "c" shadowed) = Ok (job "c" 4) /\
  job "c" 4 <> job_c /\
  def_eqb (job "c" 4) job_c = false /\
  _definition_cache (snd (get_definition "c" shadowed)) !! "c"
  = Some (job "c" 4).
Proof. repeat split; try (vm_compute; reflexivity). discriminate. Qed.

Lemma get_definition_instance_returns_source_witness :
  exists s2,
    get_definition "a" three = (Ok job_a, s2) /\
    _definition_cache s2
    = <["a" := job_a]> (_definition_cache (snd (has_definition "a" three))) /\
    _definition_cache s2 !! "a" = Some job_a.
Proof.
  refine (get_definition_instance_returns_source three "a"
            (snd (has_definition "a" three)) job_a job_a _ _ _ _);
    vm_compute; reflexivity.
Defined.

Lemma lazy_definition_under_a_key_witness :
  exists d strict s1,
    Inst d ∈ [Inst job_c] /\
    mapping_get (name d) (_definitions conflicting) = Some strict /\
    py_eq strict (Inst d) = false /\
    (forall op, perform op conflicting
                = (Raise (CheckError (duplicate_message (name d))), s1)) /\
    (forall ops op, perform op (perform_all ops s1)
                    = (Raise (CheckError (duplicate_message (name d))), s1)).
Proof.
  refine (proj1 (lazy_definition_under_a_key "JobDefinition" "job"
                   (_definitions conflicting) accept
                   (Some (_lazy_definitions_fn conflicting)) conflicting
                   [Inst job_c] _ _ _) _).
  - vm_compute; reflexivity.
  - vm_compute; reflexivity.
  - constructor; [|constructor]. exists job_c, job_c. split; reflexivity.
  - exists job_c, (Inst (job "c" 9)). split; [apply list_elem_of_here|].
    split; vm_compute; reflexivity.
Defined.

Lemma get_definition_factory_name_mismatch_witness :
  exists s2,
    get_definition "b" misnamed
    = (Raise (CheckError (bad_constructor_name_message "job" "b"
                            "JobDefinition" "a")), s2) /\
    _definition_cache s2
    = _definition_cache (snd (has_definition "b" misnamed)) /\
    _definition_cache s2 !! "b" = None.
Proof.
  refine (get_definition_factory_name_mismatch misnamed "b"
            (snd (has_definition "b" misnamed))
            (fun _ => Ok (Inst job_a)) "<class 'function'>" job_a _ _ _ _ _);
    [vm_compute; reflexivity..|vm_compute; discriminate].
Defined.

Lemma get_definition_not_found_witness :
  (exists s2,
     get_definition "zz" three
     = (Raise (DagsterInvariantViolationError
                 "Could not find job 'zz'. Found: 'a', 'b', 'c'."), s2)) /\
  (forall k, k ∈ ["a"; "b"; "c"] ->
     occurs_in ("'" +:+ k +:+ "'")
               "Could not find job 'zz'. Found: 'a', 'b', 'c'.").
Proof.
  refine (get_definition_not_found three "zz" ["a"; "b"; "c"]
            (snd (get_definition_names three)) _ _);
    vm_compute; reflexivity.
Defined.

Lemma get_all_definitions_sorted_and_memoized_witness :
  StronglySorted name_le [job_a; job_b; job_c] /\
  (exists names s' definitions s'',
     get_definition_names three = (Ok names, s') /\
     map_M get_definition names s' = (Ok definitions, s'') /\
     Forall2 (fun n d => exists sa sb, get_definition n sa = (Ok d, sb))
             names definitions /\
     Permutation definitions [job_a; job_b; job_c]) /\
  get_all_definitions (snd (get_all_definitions three))
  = (Ok [job_a; job_b; job_c], snd (get_all_definitions three)).
Proof.
  refine (get_all_definitions_sorted_and_memoized three
            [job_a; job_b; job_c] (snd (get_all_definitions three)) _ _);
    vm_compute; reflexivity.
Defined.

(** C8, as it is stated, fails: a lazy loader that raises is called again
    by the next lookup. *)
Lemma raising_lazy_definitions_fn_called_again :
  fst (perform ListNames unreachable) = Raise (UserError "unreachable") /\
  ~ count is_lazy_definitions_fn_call
      (calls (perform_all [ListNames; ListNames] unreachable)) <= 1.
Proof. split; [by vm_compute|]. vm_compute. lia. Qed.

Lemma lazy_definitions_fn_called_at_most_once_witness :
  count is_lazy_definitions_fn_call
    (calls (perform_all [ListNames; Resolve "b"; Resolve "zz"; GetAll;
                         HasName "c"; GetAll] three)) <= 1.
Proof.
  refine (lazy_definitions_fn_called_at_most_once "JobDefinition" "job"
            (_definitions three) accept (Some (_lazy_definitions_fn three))
            three [Inst job_c] _ _ _); vm_compute; reflexivity.
Defined.

End Samples.

(** * Further properties of the methods *)

Section Construction.
Context {D : Type} `{RepositoryLevelDefinition D}.
Implicit Types (s : _CacheingDefinitionIndex D).

Lemma check_definitions_ok class_name kind (items : list (string * pyobj D)) :
  Forall (fun item => instance_or_callable (snd item) = true) items ->
  check_definitions class_name kind items = Ok tt.
Proof.
  induction 1 as [|[key o] items Ho _ IH]; simpl in *; [done|].
  by rewrite Ho.
Qed.

(** X1: [__init__] goes through the mapping in order; at the first value
    that is neither an instance of the definition class nor callable it
    raises the [CheckError] "Bad definition for ...", with the kind, the key
    of that value, the class name and the type of the value, and no index
    is made. *)
Theorem init_rejects_bad_definition class_name kind validation_fn lazy_fn
    (before after : list (string * pyobj D)) key t :
  Forall (fun item => instance_or_callable (snd item) = true) before ->
  __init__ class_name kind (before ++ (key, Other t) :: after) validation_fn
           lazy_fn
  = Raise (CheckError (bad_definition_message kind key class_name t)).
Proof.
  intros Hbefore. unfold __init__.
  assert (check_definitions class_name kind (before ++ (key, Other t) :: after)
          = Raise (CheckError (bad_definition_message kind key class_name t)))
    as ->; [|done].
  induction Hbefore as [|[k o] before Ho _ IH]; simpl in *; [done|].
  by rewrite Ho.
Qed.

(** When every value of the mapping is an instance of the definition
    class or callable, [__init__] makes the index: the cache is empty,
    nothing is memoized, nothing has been called, and a missing lazy
    loader is replaced by one that returns the empty list. *)
Lemma init_accepts_definitions class_name kind validation_fn lazy_fn
    (definitions : list (string * pyobj D)) :
  Forall (fun item => instance_or_callable (snd item) = true) definitions ->
  exists s0,
    __init__ class_name kind definitions validation_fn lazy_fn = Ok s0 /\
    _definitions s0 = definitions /\
    _definition_cache s0 = ∅ /\
    _definition_names s0 = None /\
    _lazy_definitions s0 = None /\
    _all_definitions s0 = None /\
    calls s0 = [] /\
    (lazy_fn = None -> _lazy_definitions_fn s0 tt = Ok []) /\
    (forall f, lazy_fn = Some f -> _lazy_definitions_fn s0 = f).
Proof.
  intros Hok. unfold __init__. rewrite check_definitions_ok by done.
  eexists. split; [reflexivity|]. simpl. repeat split; try done.
  - by intros ->.
  - by intros f ->.
Qed.

End Construction.

Section Resolution.
Context {D : Type} `{RepositoryLevelDefinition D}.
Implicit Types (s : _CacheingDefinitionIndex D).

(** A name that was found is found again, from the memo field. *)
Lemma has_definition_again n s s1 :
  has_definition n s = (Ok true, s1) -> has_definition n s1 = (Ok true, s1).
Proof.
  intros (names & Hrun & Hfound)%has_definition_ok.
  destruct (get_definition_names_ok s names s1 Hrun) as [Hmemo _].
  destruct names as [|n0 l]; [done|].
  by rewrite has_definition_run, (get_definition_names_memo s1 n0 l Hmemo),
    <- Hfound.
Qed.

(** X2: when the factory registered under a known, uncached name returns
    a definition of that name which the validation function accepts,
    [get_definition] calls the factory, then the validation function on
    its product, stores what the validation function returned in the cache
    under the name, and returns the product of the factory itself. *)
Theorem get_definition_factory_returns_product s n s1 f ty d v :
  has_definition n s = (Ok true, s1) ->
  _definition_cache s1 !! n = None ->
  mapping_get n (_definitions s) = Some (Callable f ty) ->
  f tt = Ok (Inst d) ->
  name d = n ->
  _validation_fn s d = Ok v ->
  exists s2,
    get_definition n s = (Ok d, s2) /\
    _definition_cache s2 = <[n := v]> (_definition_cache s1) /\
    calls s2 = calls s1 ++ [FactoryCalled n; ValidationFnCalled d].
Proof.
  intros (names & Hrun & Hfound)%has_definition_ok Hcache Hsource Hmade Hname
    Hvalid.
  destruct (get_definition_names_configuration s _ s1 Hrun)
    as (_ & _ & Hfn & Hdefs & _).
  rewrite (get_definition_found n s names s1 Hrun) by done.
  unfold resolve_found. rewrite Hcache, Hdefs, Hsource.
  unfold bind at 1, call_factory, bind at 1, log, lift. simpl. rewrite Hmade.
  rewrite validate_and_cache_instance.
  apply String.eqb_eq in Hname. rewrite Hname. simpl. rewrite Hfn, Hvalid.
  eexists. split; [reflexivity|]. simpl. split; [done|].
  by rewrite <- app_assoc.
Qed.

(** X3: when the factory registered under a known, uncached name returns
    an object that is no instance of the definition class, callable or not,
    and of the type that [type] prints as [printed], [get_definition] raises
    the [CheckError] "Bad constructor for {kind} {n}: must return {class},
    got value of type {printed}"; the validation function is not called and
    the cache stays as it was. *)
Theorem get_definition_factory_not_a_definition s n s1 f ty o printed :
  has_definition n s = (Ok true, s1) ->
  _definition_cache s1 !! n = None ->
  mapping_get n (_definitions s) = Some (Callable f ty) ->
  f tt = Ok o ->
  (o = Other printed \/ exists call, o = Callable call printed) ->
  exists s2,
    get_definition n s
    = (Raise (CheckError
                ("Bad constructor for " +:+ _definition_kind s +:+ " " +:+ n
                 +:+ ": must return " +:+ _definition_class_name s
                 +:+ ", got value of type " +:+ printed)), s2) /\
    _definition_cache s2 = _definition_cache s1 /\
    calls s2 = calls s1 ++ [FactoryCalled n].
Proof.
  intros (names & Hrun & Hfound)%has_definition_ok Hcache Hsource Hmade Hother.
  destruct (get_definition_names_configuration s _ s1 Hrun)
    as (Hclass & Hkind & _ & Hdefs & _).
  rewrite (get_definition_found n s names s1 Hrun) by done.
  unfold resolve_found. rewrite Hcache, Hdefs, Hsource.
  unfold bind at 1, call_factory, bind at 1, log, lift. simpl. rewrite Hmade.
  rewrite validate_and_cache_other by (by destruct Hother as [->|[call ->]]).
  simpl. rewrite Hclass, Hkind.
  destruct Hother as [->|[call ->]]; by eexists.
Qed.

Lemma resolve_found_raises s1 n e :
  _definition_cache s1 !! n = None ->
  collaborator_raises s1 n e ->
  exists s2, resolve_found n s1 = (Raise e, s2) /\
             _definition_cache s2 = _definition_cache s1 /\
             _definition_names s2 = _definition_names s1 /\
             same_configuration s1 s2 /\
             calls s2 <> calls s1.
Proof.
  intros Hcache Hraises. unfold resolve_found. rewrite Hcache.
  assert (forall (l : list (event D)) ev evs, l ++ ev :: evs <> l) as Hgrows.
  { intros l ev evs Heq. apply (f_equal length) in Heq.
    rewrite length_app in Heq. simpl in Heq. lia. }
  destruct Hraises
    as [(d & -> & Hv)|[(f & ty & -> & Hf)|(f & ty & d & -> & Hf & Hname & Hv)]].
  - rewrite Hv. eexists. split; [reflexivity|]. simpl.
    split; [done|]. split; [done|]. split; [by repeat split|]. apply Hgrows.
  - unfold bind at 1, call_factory, bind at 1, log, lift. simpl. rewrite Hf.
    eexists. split; [reflexivity|]. simpl.
    split; [done|]. split; [done|]. split; [by repeat split|]. apply Hgrows.
  - unfold bind at 1, call_factory, bind at 1, log, lift. simpl. rewrite Hf.
    rewrite validate_and_cache_instance.
    apply String.eqb_eq in Hname. rewrite Hname. simpl. rewrite Hv.
    eexists. split; [reflexivity|]. simpl.
    split; [done|]. split; [done|]. split; [by repeat split|].
    rewrite <- app_assoc. apply Hgrows.
Qed.

(** X4: what the validation function or the factory raises for a known,
    uncached name comes out of [get_definition] as it is, and nothing is
    cached; no failure is memoized either: the next [get_definition] of
    the name calls the collaborator again and raises the same. *)
Theorem get_definition_collaborator_raises s n s1 e :
  has_definition n s = (Ok true, s1) ->
  _definition_cache s1 !! n = None ->
  collaborator_raises s n e ->
  exists s2 s3,
    get_definition n s = (Raise e, s2) /\
    _definition_cache s2 = _definition_cache s1 /\
    get_definition n s2 = (Raise e, s3) /\
    _definition_cache s3 = _definition_cache s1 /\
    calls s3 <> calls s2.
Proof.
  intros Hfound Hcache Hraises.
  pose proof (has_definition_again n s s1 Hfound) as Hagain.
  apply has_definition_ok in Hfound as (names & Hrun & Hin).
  apply has_definition_ok in Hagain as (names1 & Hrun1 & Hin1).
  destruct (get_definition_names_configuration s _ s1 Hrun)
    as (_ & _ & Hfn & Hdefs & _).
  assert (collaborator_raises s1 n e) as Hraises1.
  { unfold collaborator_raises. by rewrite Hdefs, Hfn. }
  destruct (resolve_found_raises s1 n e Hcache Hraises1)
    as (s2 & Hfirst & Hcache2 & Hnames2 & Hconf2 & _).
  destruct (get_definition_names_ok s1 names1 s1 Hrun1) as [Hmemo1 _].
  assert (get_definition_names s2 = (Ok names1, s2)) as Hrun2.
  { destruct names1 as [|n0 l]; [done|].
    apply get_definition_names_memo. congruence. }
  assert (collaborator_raises s2 n e) as Hraises2.
  { destruct Hconf2 as (_ & _ & Hfn2 & Hdefs2 & _).
    unfold collaborator_raises. by rewrite Hdefs2, Hfn2. }
  destruct (resolve_found_raises s2 n e) as (s3 & Hsecond & Hcache3 & _ & _ & Hcalls3);
    [congruence|done|].
  exists s2, s3. repeat split.
  - by rewrite (get_definition_found n s names s1 Hrun).
  - done.
  - by rewrite (get_definition_found n s2 names1 s2 Hrun2).
  - congruence.
  - done.
Qed.

End Resolution.

Section Calls.
Context {D : Type} `{RepositoryLevelDefinition D}.
Implicit Types (s : _CacheingDefinitionIndex D).

Lemma count_nil (p : event D -> bool) : count p [] = 0.
Proof. reflexivity. Qed.

Lemma resolve_found_calls n s1 :
  exists evs, calls (snd (resolve_found n s1)) = calls s1 ++ evs /\
              count is_any_factory_call evs <= 1.
Proof.
  unfold resolve_found.
  assert (count (D := D) is_any_factory_call [] <= 1) as Hnil
    by (unfold count; simpl; lia).
  destruct (_definition_cache s1 !! n) as [cached|].
  { exists []. by rewrite app_nil_r. }
  destruct (mapping_get n (_definitions s1)) as [[d|f|t]|].
  - destruct (_validation_fn s1 d); simpl; eexists; (split; [reflexivity|]);
      rewrite ?count_cons, ?count_nil; simpl; auto.
  - unfold bind at 1, call_factory, bind at 1, log, lift. simpl.
    destruct (f tt) as [[made|g|t]|e]; simpl;
      try (eexists; split; [reflexivity|];
           rewrite ?count_cons, ?count_nil; simpl; auto).
    rewrite validate_and_cache_instance.
    destruct (String.eqb (name made) n);
      [destruct (_validation_fn _ made)|]; simpl;
      try rewrite <- app_assoc; eexists; (split; [reflexivity|]);
      rewrite ?count_cons, ?count_nil; simpl; auto.
  - exists []. by rewrite app_nil_r.
  - exists []. by rewrite app_nil_r.
Qed.

(** X5: whatever it returns or raises, one [get_definition n] calls no
    factory but the one registered under [n], and calls it at most once. *)
Theorem get_definition_calls_own_factory s n :
  exists evs,
    calls (snd (get_definition n s)) = calls s ++ evs /\
    Forall (fun ev => forall key, ev = FactoryCalled key -> key = n) evs /\
    count is_any_factory_call evs <= 1.
Proof.
  destruct (moving_get_definition
              (fun ev => forall key, ev = FactoryCalled key -> key = n) n)
    with (s := s) as [_ (evs & Hevs & Hown) _ _ _ _]; try done.
  { by intros key [= ->]. }
  exists evs. split; [done|]. split; [done|].
  rewrite get_definition_run in Hevs.
  pose proof (moving_get_definition_names
                (fun ev => is_any_factory_call ev = false) eq_refl
                (fun _ => eq_refl) eq_refl s)
    as [_ (evs0 & Hevs0 & Hnone0) _ _ _ _].
  destruct (get_definition_names s) as [[names|e] s1]; simpl in *.
  - destruct (contains n names).
    + destruct (resolve_found_calls n s1) as (evs1 & Hevs1 & Hcount).
      rewrite Hevs1, Hevs0, <- app_assoc in Hevs.
      apply app_inv_head in Hevs as <-.
      rewrite count_app, (count_none _ evs0) by done. lia.
    + pose proof (moving_get_definition_names
                    (fun ev => is_any_factory_call ev = false) eq_refl
                    (fun _ => eq_refl) eq_refl s1)
        as [_ (evs1 & Hevs1 & Hnone1) _ _ _ _].
      destruct (get_definition_names s1) as [[found|e] s2]; simpl in *.
      all: rewrite Hevs1, Hevs0, <- app_assoc in Hevs.
      all: apply app_inv_head in Hevs as <-.
      all: rewrite count_app, !count_none by done; lia.
  - rewrite Hevs0 in Hevs. apply app_inv_head in Hevs as <-.
    rewrite count_none by done. lia.
Qed.

End Calls.

Section Permanence.
Context {D : Type} `{RepositoryLevelDefinition D}.
Implicit Types (s : _CacheingDefinitionIndex D).

(** X6: a definition that [get_definition n] has returned stays: whatever
    is looked up afterwards, in any number and order, the cache holds the
    same definition under [n], and [get_definition n] returns it and
    leaves the object as it is. *)
Theorem get_definition_stays s n d s1 :
  get_definition n s = (Ok d, s1) ->
  exists d',
    (d' = d \/ _validation_fn s d = Ok d') /\
    forall ops,
      _definition_cache (perform_all ops s1) !! n = Some d' /\
      get_definition n (perform_all ops s1) = (Ok d', perform_all ops s1).
Proof.
  rewrite get_definition_run.
  destruct (get_definition_names s) as [[names|e] s0] eqn:Hrun; [|done].
  destruct (contains n names) eqn:Hfound.
  2:{ by destruct (get_definition_names s0) as [[found|e] s2]. }
  intros Hresolve.
  destruct (get_definition_names_configuration s _ s0 Hrun)
    as (_ & _ & Hfn & _).
  destruct (get_definition_names_ok s names s0 Hrun) as [Hmemo _].
  destruct (resolve_found_ok n s0 d s1 Hresolve)
    as (Hnames & (d' & Hcached & Horigin) & _).
  exists d'. split; [by rewrite <- Hfn|]. intros ops.
  assert (settled names n d' s1) as Hsettled.
  { repeat split; [by destruct names|congruence|done]. }
  destruct (settled_perform_all names n d' ops s1 Hsettled)
    as (Hne & Hnames' & Hcache').
  split; [done|]. destruct names as [|n0 l]; [done|].
  rewrite (get_definition_found n _ (n0 :: l) (perform_all ops s1));
    [|by apply get_definition_names_memo|done].
  unfold resolve_found. by rewrite Hcache'.
Qed.

Lemma get_all_definitions_ok s all s1 :
  get_all_definitions s = (Ok all, s1) -> _all_definitions s1 = Some all.
Proof.
  destruct (_all_definitions s) as [memo|] eqn:Hmemo.
  - rewrite (get_all_definitions_memo s memo Hmemo). by intros [= <- <-].
  - rewrite (get_all_definitions_run s Hmemo).
    destruct (get_definition_names s) as [[names|e] s'] eqn:Hnames; [|done].
    by destruct (map_M get_definition names s') as [[definitions|e] s''];
      intros [= <- <-].
Qed.

(** X7: the list that [get_all_definitions] has returned stays: whatever
    is looked up afterwards, [get_all_definitions] returns that list and
    leaves the object as it is. *)
Theorem get_all_definitions_stays s all s1 ops :
  get_all_definitions s = (Ok all, s1) ->
  get_all_definitions (perform_all ops s1) = (Ok all, perform_all ops s1).
Proof.
  intros Hmemo%get_all_definitions_ok. apply get_all_definitions_memo.
  by apply (moves_all_definitions _ _ _ (moves_perform_all ops s1)).
Qed.

Lemma map_M_raises {A B} (f : A -> M D B) l s e s1 :
  map_M f l s = (Raise e, s1) ->
  exists before x after ys sa,
    l = before ++ x :: after /\
    map_M f before s = (Ok ys, sa) /\
    f x sa = (Raise e, s1).
Proof.
  revert s. induction l as [|x l IH]; intros s; simpl; [done|].
  unfold bind at 1. destruct (f x s) as [[y|e'] s'] eqn:Hx.
  - unfold bind at 1. destruct (map_M f l s') as [[ys|e'] s''] eqn:Hl; [done|].
    intros [= <- <-].
    destruct (IH s' Hl) as (before & x' & after & ys & sa & -> & Hbefore & Hx').
    exists (x :: before), x', after, (y :: ys), sa. repeat split; [|done].
    simpl. unfold bind at 1. rewrite Hx. unfold bind at 1. by rewrite Hbefore.
  - intros [= <- <-]. by exists [], x, l, [], s.
Qed.

(** X8: when no list is memoized and [get_all_definitions] raises, it has
    raised what the listing of the names raised, or what [get_definition]
    raised for the first name of the list for which it raises, the names
    after it being left alone; and no list is memoized. *)
Theorem get_all_definitions_raises s e s1 :
  _all_definitions s = None ->
  get_all_definitions s = (Raise e, s1) ->
  _all_definitions s1 = None /\
  (get_definition_names s = (Raise e, s1) \/
   exists names s' before n after definitions sa,
     get_definition_names s = (Ok names, s') /\
     names = before ++ n :: after /\
     map_M get_definition before s' = (Ok definitions, sa) /\
     get_definition n sa = (Raise e, s1)).
Proof.
  intros Hnone Hrun.
  pose proof (keeps_all_get_definition_names None s Hnone) as Hkeep1.
  rewrite (get_all_definitions_run s Hnone) in Hrun.
  destruct (get_definition_names s) as [[names|e'] s'] eqn:Hnames;
    simpl in Hkeep1.
  - pose proof (keeps_all_map_get_definition None names s' Hkeep1) as Hkeep2.
    destruct (map_M get_definition names s') as [[definitions|e'] s''] eqn:Hmap;
      [done|]. injection Hrun as <- <-. split; [done|right].
    destruct (map_M_raises _ _ _ _ _ Hmap)
      as (before & n & after & ys & sa & -> & Hbefore & Hn).
    by exists (before ++ n :: after), s', before, n, after, ys, sa.
  - injection Hrun as <- <-. auto.
Qed.

End Permanence.

Section FromInit.
Context {D : Type} `{RepositoryLevelDefinition D}.
Implicit Types (s : _CacheingDefinitionIndex D).

(** X9: the first listing of the names of a new index calls the lazy
    loader, then the validation function on each definition of its batch,
    once and in the order of the batch, and nothing else; the cache then
    holds what the validation function returned, under the names of the
    batch, a later definition of a name replacing an earlier one. *)
Theorem first_listing_validates_batch class_name kind definitions
    validation_fn lazy_fn s0 names s1 :
  __init__ class_name kind definitions validation_fn lazy_fn = Ok s0 ->
  get_definition_names s0 = (Ok names, s1) ->
  exists batch,
    _lazy_definitions_fn s0 tt = Ok batch /\
    _lazy_definitions s1 = Some batch /\
    all_valid validation_fn batch /\
    calls s1 = LazyDefinitionsFnCalled
               :: map ValidationFnCalled (instances batch) ++ [NamesBuilt] /\
    _definition_cache s1 = cache_after validation_fn batch ∅.
Proof.
  intros Hinit%init_run Hrun.
  destruct (get_definition_names_ok _ _ _ Hrun)
    as [_ [(_ & Hmemo & _)|(batch & lazy_names & s' & _ & Hload & _ & _ & ->)]].
  { by subst. }
  apply get_lazy_definitions_ok in Hload
    as [Hloaded [(Hmemo & _)|(_ & Hfn & Hvalid & Hcache & Hcalls)]];
    [by subst|].
  exists batch. subst s0. simpl in *. repeat split; try done.
  by rewrite Hcalls.
Qed.

(** X10: once a name list that is not empty has been returned, it has
    been built once, and it is not built again whatever is looked up. *)
Theorem names_built_once class_name kind definitions validation_fn lazy_fn
    s0 ops names s1 ops' :
  __init__ class_name kind definitions validation_fn lazy_fn = Ok s0 ->
  get_definition_names (perform_all ops s0) = (Ok names, s1) ->
  names <> [] ->
  count is_names_built (calls (perform_all ops' s1)) = 1.
Proof.
  intros Hinit Hrun Hne.
  pose proof (consistent_perform_all _ _ _ _ _ s0 ops Hinit) as Hs.
  pose proof (consistent_get_definition_names _ Hs) as Hs1.
  rewrite Hrun in Hs1. simpl in Hs1.
  destruct (get_definition_names_ok _ _ _ Hrun) as [Hmemo _].
  pose proof (keeps_perform_all consistent ops' s1 consistent_aside
                consistent_get_definition_names Hs1) as (_ & _ & _ & Hbuilt).
  destruct names as [|n l]; [done|].
  by rewrite (moves_definition_names _ _ _ (moves_perform_all ops' s1) n l Hmemo)
    in Hbuilt.
Qed.

Lemma validate_batch_not_valid batch s :
  ~ all_valid (_validation_fn s) batch ->
  exists e s1, for_each validate_lazy_definition batch s = (Raise e, s1).
Proof.
  intros Hnot.
  destruct (for_each validate_lazy_definition batch s) as [[[]|e] s1] eqn:Hloop.
  - by apply validate_batch_ok in Hloop as [Hall _].
  - by exists e, s1.
Qed.

(** X11: when the validation function rejects a definition of the lazy
    loader's batch, the first lookup of a new index raises, but the batch
    stays memoized: if no definition of the batch differs from an entry of
    the mapping, the next listing returns all the names, those of the
    definitions never validated included, without calling the validation
    function again; and [get_definition] raises [KeyError] for such a
    name when it is no key of the mapping and not in the cache. *)
Theorem rejected_batch_is_listed class_name kind definitions validation_fn
    lazy_fn s0 batch lazy_names :
  __init__ class_name kind definitions validation_fn lazy_fn = Ok s0 ->
  _lazy_definitions_fn s0 tt = Ok batch ->
  ~ all_valid validation_fn batch ->
  lazy_names_of definitions batch [] = Ok lazy_names ->
  exists e s1,
    (forall op, perform op s0 = (Raise e, s1)) /\
    get_definition_names s1
    = (Ok (mapping_keys definitions ++ lazy_names),
       named (mapping_keys definitions ++ lazy_names) s1) /\
    (forall n, n ∈ lazy_names -> _definition_cache s1 !! n = None ->
               exists s2, get_definition n s1 = (Raise (KeyError n), s2)).
Proof.
  intros Hinit%init_run Hfn Hnot Hloop.
  assert (_lazy_definitions s0 = None) as Hlazy0 by (by subst).
  assert (_validation_fn (loading batch s0) = validation_fn) as Hvfn
    by (by subst).
  destruct (validate_batch_not_valid batch (loading batch s0)) as (e & s1 & Hrun).
  { by rewrite Hvfn. }
  assert (_get_lazy_definitions s0 = (Raise e, s1)) as Hload.
  { by rewrite (get_lazy_definitions_load s0 Hlazy0), Hfn, Hrun. }
  pose proof (moving_get_lazy_definitions (fun _ => True) I (fun _ => I) s0)
    as [(_ & _ & _ & Hdefs & _) _ _ _ _ _].
  pose proof (keeps_names_get_lazy_definitions None s0) as Hnames.
  rewrite Hload in Hdefs, Hnames. simpl in *.
  assert (_definitions s1 = definitions) as Hdefs1 by (by subst).
  assert (_definition_names s1 = None) as Hnames1 by (apply Hnames; by subst).
  apply get_lazy_definitions_raise in Hload
    as (_ & [(Hraise & _)|(batch' & evs & Hfn' & Hloaded & _)]); [congruence|].
  assert (batch' = batch) as -> by congruence.
  assert (get_definition_names s1
          = (Ok (mapping_keys definitions ++ lazy_names),
             named (mapping_keys definitions ++ lazy_names) s1)) as Hlist.
  { rewrite get_definition_names_build, build_definition_names_run
      by (rewrite Hnames1; done).
    by rewrite (get_lazy_definitions_memo s1 batch Hloaded), Hdefs1, Hloop. }
  exists e, s1. split; [|split; [done|]].
  - intros op. apply perform_without_names; [|by subst].
    rewrite get_definition_names_build, build_definition_names_run
      by (subst; done).
    by rewrite (get_lazy_definitions_load s0 Hlazy0), Hfn, Hrun.
  - intros n Hin Hcache.
    rewrite (get_definition_found n s1 _ _ Hlist).
    2:{ apply contains_elem_of, elem_of_app. by right. }
    unfold resolve_found.
    change (_definition_cache (named (mapping_keys definitions ++ lazy_names) s1))
      with (_definition_cache s1).
    change (_definitions (named (mapping_keys definitions ++ lazy_names) s1))
      with (_definitions s1).
    rewrite Hcache, Hdefs1.
    apply lazy_names_of_ok in Hloop. simpl in Hloop. subst lazy_names.
    unfold lazy_only_names in Hin. apply list_elem_of_filter in Hin as [Hkey _].
    apply mapping_get_none in Hkey. rewrite Hkey. by eexists.
Qed.

End FromInit.

Section Namespace.
Context {D : Type} `{RepositoryLevelDefinition D}.
Implicit Types (s : _CacheingDefinitionIndex D).

(** X12: on a new index whose lazy loader returns a batch of definitions
    that the validation function accepts and none of which differs from an
    entry of the mapping, the names are listed whenever they are asked
    for, whatever was looked up before. *)
Theorem get_definition_names_returns class_name kind definitions validation_fn
    lazy_fn s0 batch ops :
  __init__ class_name kind definitions validation_fn lazy_fn = Ok s0 ->
  _lazy_definitions_fn s0 tt = Ok batch ->
  all_valid validation_fn batch ->
  (forall d strict, Inst d ∈ batch ->
                    mapping_get (name d) definitions = Some strict ->
                    py_eq strict (Inst d) = true) ->
  exists s1,
    get_definition_names (perform_all ops s0)
    = (Ok (mapping_keys definitions ++ lazy_only_names definitions batch), s1).
Proof.
  intros Hinit Hfn Hvalid Hagree.
  pose proof (consistent_perform_all _ _ _ _ _ s0 ops Hinit) as Hs.
  destruct (perform_all_configuration ops s0) as (_ & _ & Hvfn & Hdefs & Hlfn).
  apply init_run in Hinit.
  assert (_definitions s0 = definitions) as Hdefs0 by (by subst).
  assert (_validation_fn s0 = validation_fn) as Hvfn0 by (by subst).
  destruct (lazy_names_of_agree definitions batch []
              (all_valid_instances _ _ Hvalid) Hagree) as [lazy_names Hloop].
  destruct (get_definition_names_succeeds (perform_all ops s0) batch lazy_names)
    as [s1 Hrun]; try done.
  - by rewrite Hlfn.
  - by rewrite Hvfn, Hvfn0.
  - by rewrite Hdefs, Hdefs0.
  - exists s1. apply lazy_names_of_ok in Hloop as ->.
    by rewrite Hrun, Hdefs, Hdefs0.
Qed.

Lemma cache_after_other (validation_fn : D -> result D)
    (batch : list (pyobj D)) (cache : gmap string D) key :
  key ∉ instance_names batch ->
  cache_after validation_fn batch cache !! key = cache !! key.
Proof.
  revert cache.
  induction batch as [|[d|f|t] batch IH]; intros cache Hkey; simpl; try done.
  simpl in Hkey. apply not_elem_of_cons in Hkey as [Hne Hkey].
  destruct (validation_fn d) as [v|]; [|done].
  rewrite IH by done. by rewrite lookup_insert_ne.
Qed.

Lemma cache_after_unique (validation_fn : D -> result D)
    (batch : list (pyobj D)) (cache : gmap string D) d v :
  all_valid validation_fn batch ->
  NoDup (instance_names batch) ->
  Inst d ∈ batch ->
  validation_fn d = Ok v ->
  cache_after validation_fn batch cache !! name d = Some v.
Proof.
  intros Hall. revert cache.
  induction Hall as [|o batch (d0 & v0 & -> & Hv0) _ IH];
    intros cache Hnodup Hin Hv.
  { by apply elem_of_nil in Hin. }
  simpl in *. apply NoDup_cons in Hnodup as [Hfresh Hnodup]. rewrite Hv0.
  apply elem_of_cons in Hin as [[= ->]|Hin].
  - rewrite cache_after_other by done. rewrite lookup_insert_eq. congruence.
  - by apply IH.
Qed.

(** X13: on such an index, when the names of the batch are all different,
    the first [get_definition] of a name of the batch returns what the
    validation function returned for the definition of that name, also
    when the mapping holds an equal instance under the name; it calls no
    factory. *)
Theorem get_definition_lazy_returns_validated class_name kind definitions
    validation_fn lazy_fn s0 batch d v :
  __init__ class_name kind definitions validation_fn lazy_fn = Ok s0 ->
  _lazy_definitions_fn s0 tt = Ok batch ->
  all_valid validation_fn batch ->
  (forall d strict, Inst d ∈ batch ->
                    mapping_get (name d) definitions = Some strict ->
                    py_eq strict (Inst d) = true) ->
  NoDup (instance_names batch) ->
  Inst d ∈ batch ->
  validation_fn d = Ok v ->
  exists s1,
    get_definition (name d) s0 = (Ok v, s1) /\
    count is_any_factory_call (calls s1) = 0.
Proof.
  intros Hinit Hfn Hvalid Hagree Hnodup Hin Hv.
  pose proof (init_consistent _ _ _ _ _ _ Hinit) as Hs0.
  apply init_run in Hinit.
  assert (_definitions s0 = definitions) as Hdefs0 by (by subst).
  assert (_validation_fn s0 = validation_fn) as Hvfn0 by (by subst).
  destruct (lazy_names_of_agree definitions batch []
              (all_valid_instances _ _ Hvalid) Hagree) as [lazy_names Hloop].
  destruct (get_definition_names_succeeds s0 batch lazy_names Hs0 Hfn)
    as [s1 Hrun]; [by rewrite Hvfn0|by rewrite Hdefs0|].
  assert (contains (name d) (mapping_keys (_definitions s0) ++ lazy_names)
          = true) as Hfound.
  { apply lazy_names_of_ok in Hloop as ->. rewrite Hdefs0.
    by apply contains_names_of_batch. }
  rewrite (get_definition_found _ _ _ _ Hrun Hfound).
  pose proof (moving_get_definition_names
                (fun ev => is_any_factory_call ev = false) eq_refl
                (fun _ => eq_refl) eq_refl s0)
    as [_ (evs & Hevs & Hnone) _ _ _ _].
  rewrite Hrun in Hevs. simpl in Hevs.
  destruct (get_definition_names_ok _ _ _ Hrun)
    as [_ [(_ & Hmemo & _)|(batch' & lazy_names' & s' & _ & Hload & _ & _ & ->)]].
  { by subst. }
  apply get_lazy_definitions_ok in Hload
    as [_ [(Hmemo & _)|(_ & Hfn' & _ & Hcache & _)]]; [by subst|].
  assert (batch' = batch) as -> by congruence.
  unfold resolve_found.
  change (_definition_cache (named (mapping_keys (_definitions s0)
                                      ++ lazy_names) s'))
    with (_definition_cache s').
  rewrite Hcache, Hvfn0, (cache_after_unique validation_fn batch _ d v) by done.
  eexists. split; [reflexivity|].
  rewrite Hevs. subst s0. simpl. by apply count_none.
Qed.

Lemma keeps_for_each_in {A} (I : _CacheingDefinitionIndex D -> Prop)
    (body : A -> M D unit) (l : list A) :
  (forall x, x ∈ l -> keeps I (body x)) -> keeps I (for_each body l).
Proof.
  induction l as [|x l IH]; intros Hbody; simpl.
  - apply keeps_ret.
  - apply keeps_bind.
    + apply Hbody, list_elem_of_here.
    + intros _. apply IH. intros y Hy. by apply Hbody, list_elem_of_further.
Qed.

Lemma cache_named_validate_lazy_definition (batch : list (pyobj D)) o :
  o ∈ batch ->
  keeps (fun s => cache_named s /\ _lazy_definitions s = Some batch)
        (validate_lazy_definition o).
Proof.
  intros Hin s [Hs Hlazy]. destruct o as [d|f|t].
  2,3: by rewrite validate_lazy_definition_other.
  rewrite validate_lazy_definition_instance.
  destruct (_validation_fn s d) as [v|e]; [|done]. simpl.
  split; [|done]. intros key. unfold cache_named in Hs. simpl.
  destruct (decide (name d = key)) as [<-|Hne].
  - intros _. right. exists batch. split; [done|].
    by apply instance_names_elem_of.
  - rewrite lookup_insert_ne by done. apply Hs.
Qed.

Lemma cache_named_get_lazy_definitions : keeps cache_named _get_lazy_definitions.
Proof.
  intros s Hs. destruct (_lazy_definitions s) as [memo|] eqn:Hmemo.
  { by rewrite (get_lazy_definitions_memo s memo Hmemo). }
  rewrite (get_lazy_definitions_load s Hmemo).
  destruct (_lazy_definitions_fn s tt) as [batch|e]; [|exact Hs].
  assert (cache_named (loading batch s) /\
          _lazy_definitions (loading batch s) = Some batch) as Hloading.
  { split; [|done]. intros key Hkey. destruct (Hs key Hkey)
      as [?|(b & Hb & _)]; [by left|congruence]. }
  pose proof (keeps_for_each_in _ validate_lazy_definition batch
                (cache_named_validate_lazy_definition batch)
                (loading batch s) Hloading) as [Hkept _].
  by destruct (for_each validate_lazy_definition batch (loading batch s))
    as [[[]|e] s1].
Qed.

Lemma cache_named_get_definition_names : keeps cache_named get_definition_names.
Proof.
  intros s Hs. destruct (_definition_names s) as [[|n l]|] eqn:Hmemo.
  2:{ by rewrite (get_definition_names_memo s n l Hmemo). }
  all: rewrite get_definition_names_build, build_definition_names_run
         by congruence.
  all: pose proof (cache_named_get_lazy_definitions s Hs) as Hs1.
  all: destruct (_get_lazy_definitions s) as [[batch|e] s1]; [|done].
  all: by destruct (lazy_names_of (_definitions s1) batch []).
Qed.

Lemma cache_named_resolve_found n s :
  cache_named s -> cache_named (snd (resolve_found n s)).
Proof.
  intros Hs. unfold resolve_found.
  destruct (_definition_cache s !! n) as [cached|]; [done|].
  destruct (mapping_get n (_definitions s)) as [source|] eqn:Hget; [|done].
  assert (forall v s', 
            _definition_cache s' = <[n := v]> (_definition_cache s) ->
            _definitions s' = _definitions s ->
            _lazy_definitions s' = _lazy_definitions s ->
            cache_named s') as Hstore.
  { intros v s' Hcache Hdefs Hlazy key. rewrite Hcache, Hdefs, Hlazy.
    destruct (decide (n = key)) as [<-|Hne].
    - intros _. left. by apply contains_elem_of, (mapping_get_some _ _ source).
    - rewrite lookup_insert_ne by done. apply Hs. }
  destruct source as [d|f|t]; [| |done].
  - destruct (_validation_fn s d) as [v|e]; [|done]. by eapply Hstore.
  - unfold bind at 1, call_factory, bind at 1, log, lift. simpl.
    destruct (f tt) as [[made|g|t]|e]; try done.
    rewrite validate_and_cache_instance.
    destruct (String.eqb (name made) n); [|done]. simpl.
    destruct (_validation_fn s made) as [v|e]; [|done]. by eapply Hstore.
Qed.

Lemma cache_named_get_definition n : keeps cache_named (get_definition n).
Proof.
  intros s Hs. rewrite get_definition_run.
  pose proof (cache_named_get_definition_names s Hs) as Hs1.
  destruct (get_definition_names s) as [[names|e] s1]; [|done].
  destruct (contains n names); [by apply cache_named_resolve_found|].
  pose proof (cache_named_get_definition_names s1 Hs1) as Hs2.
  by destruct (get_definition_names s1) as [[found|e] s2].
Qed.

Lemma cache_named_perform op : keeps cache_named (perform op).
Proof.
  destruct op; simpl; keeps_through.
  - apply cache_named_get_definition_names.
  - unfold has_definition. keeps_through. apply cache_named_get_definition_names.
  - apply cache_named_get_definition.
  - unfold get_all_definitions. keeps_through.
    + apply cache_named_get_definition_names.
    + apply keeps_map_M. intros n. apply cache_named_get_definition.
    + intros s Hs. exact Hs.
Qed.

(** X14: from [__init__] on and whatever is looked up, every name in the
    cache is a key of the mapping or the name of a definition of the batch
    that the lazy loader returned. *)
Theorem cache_holds_known_names class_name kind definitions validation_fn
    lazy_fn s0 ops key :
  __init__ class_name kind definitions validation_fn lazy_fn = Ok s0 ->
  is_Some (_definition_cache (perform_all ops s0) !! key) ->
  key ∈ mapping_keys definitions \/
  exists batch, _lazy_definitions_fn s0 tt = Ok batch /\
                key ∈ instance_names batch.
Proof.
  intros Hinit Hkey.
  pose proof (consistent_perform_all _ _ _ _ _ s0 ops Hinit) as (Hlazy & _).
  destruct (perform_all_configuration ops s0) as (_ & _ & _ & Hdefs & Hfn).
  assert (cache_named (perform_all ops s0)) as Hnamed.
  { clear Hkey Hlazy Hdefs Hfn. apply init_run in Hinit.
    assert (cache_named s0) as Hs0.
    { subst s0. intros k [d Hd]. simpl in Hd. by rewrite lookup_empty in Hd. }
    clear Hinit. revert s0 Hs0.
    induction ops as [|op ops IH]; intros s0 Hs0; simpl; [done|].
    by apply IH, cache_named_perform. }
  destruct (Hnamed key Hkey) as [Hin|(batch & Hbatch & Hin)].
  - left. apply init_run in Hinit. rewrite Hdefs in Hin. by subst s0.
  - right. exists batch. split; [|done]. rewrite <- Hfn. by apply Hlazy.
Qed.

End Namespace.

Section AlwaysSorted.
Context {D : Type} `{RepositoryLevelDefinition D}.
Implicit Types (s : _CacheingDefinitionIndex D).

Lemma all_sorted_untouched {A} (m : M D A) :
  (forall x, keeps (fun s => _all_definitions s = x) m) -> keeps all_sorted m.
Proof.
  intros Hm s Hs all Hall. apply Hs.
  by rewrite <- (Hm (_all_definitions s) s eq_refl).
Qed.

Lemma all_sorted_get_all_definitions : keeps all_sorted get_all_definitions.
Proof.
  intros s Hs. destruct (_all_definitions s) as [memo|] eqn:Hmemo.
  { by rewrite (get_all_definitions_memo s memo Hmemo). }
  rewrite (get_all_definitions_run s Hmemo).
  pose proof (keeps_all_get_definition_names None s Hmemo) as Hkeep1.
  destruct (get_definition_names s) as [[names|e] s1]; simpl in Hkeep1.
  2:{ intros all Hall. simpl in Hall. congruence. }
  pose proof (keeps_all_map_get_definition None names s1 Hkeep1) as Hkeep2.
  destruct (map_M get_definition names s1) as [[definitions|e] s2];
    simpl in Hkeep2.
  - intros all [= <-]. apply sorted_by_name_sorted.
  - intros all Hall. simpl in Hall. congruence.
Qed.

Lemma all_sorted_perform op : keeps all_sorted (perform op).
Proof.
  destruct op; simpl; keeps_through.
  - apply all_sorted_untouched, keeps_all_get_definition_names.
  - apply all_sorted_untouched. intros x. unfold has_definition.
    keeps_through. apply keeps_all_get_definition_names.
  - apply all_sorted_untouched. intros x. apply keeps_all_get_definition.
  - apply all_sorted_get_all_definitions.
Qed.

(** X15: from [__init__] on and whatever was looked up before, a list that
    [get_all_definitions] returns is sorted by name, whether it is computed
    by that call or served from the memo field. *)
Theorem get_all_definitions_always_sorted class_name kind definitions
    validation_fn lazy_fn s0 ops all s1 :
  __init__ class_name kind definitions validation_fn lazy_fn = Ok s0 ->
  get_all_definitions (perform_all ops s0) = (Ok all, s1) ->
  StronglySorted name_le all.
Proof.
  intros Hinit%init_run Hrun.
  assert (all_sorted (perform_all ops s0)) as Hsorted.
  { assert (all_sorted s0) as Hs0 by (by subst s0).
    clear Hinit Hrun. revert s0 Hs0.
    induction ops as [|op ops IH]; intros s0 Hs0; simpl; [done|].
    by apply IH, all_sorted_perform. }
  pose proof (all_sorted_get_all_definitions _ Hsorted) as Hafter.
  rewrite Hrun in Hafter. apply Hafter. simpl.
  by apply (get_all_definitions_ok _ _ _ Hrun).
Qed.

End AlwaysSorted.

Section Membership.
Context {D : Type} `{RepositoryLevelDefinition D}.
Implicit Types (s : _CacheingDefinitionIndex D).

Lemma listed_names_from_init class_name kind definitions validation_fn
    lazy_fn s0 ops names s1 :
  __init__ class_name kind definitions validation_fn lazy_fn = Ok s0 ->
  get_definition_names (perform_all ops s0) = (Ok names, s1) ->
  exists batch,
    _lazy_definitions_fn s0 tt = Ok batch /\
    names = mapping_keys definitions ++ lazy_only_names definitions batch.
Proof.
  intros Hinit Hrun. pose proof (init_run _ _ _ _ _ _ Hinit) as Hs0.
  pose proof (consistent_perform_all _ _ _ _ _ s0 ops Hinit) as Hs.
  pose proof (consistent_get_definition_names _ Hs) as Hs1.
  rewrite Hrun in Hs1. simpl in Hs1.
  destruct (get_definition_names_ok _ _ _ Hrun) as [Hmemo _].
  destruct Hs1 as (Hlazy & Hnames & _).
  destruct (Hnames _ Hmemo) as (batch & lazy_names & Hb & Hl & ->).
  pose proof (get_definition_names_configuration _ _ _ Hrun)
    as (_ & _ & _ & Hdefs1 & Hfn1).
  destruct (perform_all_configuration ops s0) as (_ & _ & _ & Hdefs & Hfn).
  exists batch. split.
  - rewrite <- Hfn, <- Hfn1. by apply Hlazy.
  - rewrite Hdefs1, Hdefs in *. apply lazy_names_of_ok in Hl as ->.
    by rewrite Hs0.
Qed.

Lemma instance_names_elem_of_inv (batch : list (pyobj D)) n :
  n ∈ instance_names batch -> exists d, Inst d ∈ batch /\ name d = n.
Proof.
  induction batch as [|[d|f|t] batch IH]; simpl.
  - by intros ?%elem_of_nil.
  - intros [->|Hin]%elem_of_cons.
    + exists d. split; [apply list_elem_of_here|done].
    + destruct (IH Hin) as (d' & Hd' & Hname).
      exists d'. split; [by apply list_elem_of_further|done].
  - intros Hin. destruct (IH Hin) as (d' & Hd' & Hname).
    exists d'. split; [by apply list_elem_of_further|done].
  - intros Hin. destruct (IH Hin) as (d' & Hd' & Hname).
    exists d'. split; [by apply list_elem_of_further|done].
Qed.

(** X16: from [__init__] on and whatever was looked up before, when
    [has_definition n] returns, it returns [True] exactly when [n] is a key
    of the mapping or the name of a definition of the batch that the lazy
    loader returned. *)
Theorem has_definition_known_names class_name kind definitions validation_fn
    lazy_fn s0 ops n found s1 :
  __init__ class_name kind definitions validation_fn lazy_fn = Ok s0 ->
  has_definition n (perform_all ops s0) = (Ok found, s1) ->
  exists batch,
    _lazy_definitions_fn s0 tt = Ok batch /\
    (found = true <->
     n ∈ mapping_keys definitions \/ exists d, Inst d ∈ batch /\ name d = n).
Proof.
  intros Hinit (names & Hrun & ->)%has_definition_ok.
  destruct (listed_names_from_init _ _ _ _ _ _ _ _ _ Hinit Hrun)
    as (batch & Hfn & ->).
  exists batch. split; [done|].
  rewrite contains_elem_of, elem_of_app. unfold lazy_only_names.
  rewrite list_elem_of_filter. split.
  - intros [Hkey|[_ Hin]]; [by left|right].
    by apply instance_names_elem_of_inv.
  - intros [Hkey|(d & Hin & <-)]; [by left|].
    destruct (contains (name d) (mapping_keys definitions)) eqn:Hc.
    + left. by apply contains_elem_of.
    + right. split; [done|]. by apply instance_names_elem_of.
Qed.

End Membership.

(** * The further properties on the sample indexes *)

Section MoreSamples.
Import Sample.

Lemma init_rejects_bad_definition_witness :
  __init__ "JobDefinition" "job"
    ([("a", Inst job_a)] ++ ("x", Other "<class 'int'>") :: [("b", Inst job_b)])
    accept None
  = Raise (CheckError (bad_definition_message "job" "x" "JobDefinition"
                         "<class 'int'>")).
Proof.
  refine (init_rejects_bad_definition "JobDefinition" "job" accept None
            [("a", Inst job_a)] [("b", Inst job_b)] "x" "<class 'int'>" _).
  repeat constructor.
Defined.

Lemma get_definition_factory_returns_product_witness :
  exists s2,
    get_definition "b" three = (Ok job_b, s2) /\
    _definition_cache s2
    = <["b" := job_b]> (_definition_cache (snd (has_definition "b" three))) /\
    calls s2 = calls (snd (has_definition "b" three))
               ++ [FactoryCalled "b"; ValidationFnCalled job_b].
Proof.
  refine (get_definition_factory_returns_product three "b"
            (snd (has_definition "b" three)) (fun _ => Ok (Inst job_b))
            "<class 'function'>" job_b job_b _ _ _ _ _ _);
    vm_compute; reflexivity.
Defined.

Lemma get_definition_factory_not_a_definition_witness :
  exists s2,
    get_definition "b" not_a_job
    = (Raise (CheckError
                ("Bad constructor for job b: must return JobDefinition, "
                 +:+ "got value of type <class 'functools.partial'>")), s2) /\
    _definition_cache s2
    = _definition_cache (snd (has_definition "b" not_a_job)) /\
    calls s2 = calls (snd (has_definition "b" not_a_job)) ++ [FactoryCalled "b"].
Proof.
  refine (get_definition_factory_not_a_definition not_a_job "b"
            (snd (has_definition "b" not_a_job))
            (fun _ => Ok partial_b) "<class 'function'>" partial_b
            "<class 'functools.partial'>" _ _ _ _ _);
    [vm_compute; reflexivity..|].
  right. exists (fun _ => Ok (Inst job_b)). reflexivity.
Defined.

Lemma get_definition_collaborator_raises_witness :
  exists s2 s3,
    get_definition "a" refusing = (Raise (UserError "rejected"), s2) /\
    _definition_cache s2
    = _definition_cache (snd (has_definition "a" refusing)) /\
    get_definition "a" s2 = (Raise (UserError "rejected"), s3) /\
    _definition_cache s3
    = _definition_cache (snd (has_definition "a" refusing)) /\
    calls s3 <> calls s2.
Proof.
  refine (get_definition_collaborator_raises refusing "a"
            (snd (has_definition "a" refusing)) (UserError "rejected") _ _ _).
  - vm_compute; reflexivity.
  - vm_compute; reflexivity.
  - left. exists job_a. split; vm_compute; reflexivity.
Defined.

Lemma get_definition_stays_witness :
  exists d',
    (d' = job_a \/ _validation_fn stamped job_a = Ok d') /\
    forall ops,
      _definition_cache (perform_all ops (snd (get_definition "a" stamped)))
        !! "a" = Some d' /\
      get_definition "a" (perform_all ops (snd (get_definition "a" stamped)))
      = (Ok d', perform_all ops (snd (get_definition "a" stamped))).
Proof.
  refine (get_definition_stays stamped "a" job_a
            (snd (get_definition "a" stamped)) _).
  vm_compute; reflexivity.
Defined.

Lemma get_all_definitions_stays_witness :
  get_all_definitions
    (perform_all [Resolve "zz"; ListNames; Resolve "b"]
       (snd (get_all_definitions three)))
  = (Ok [job_a; job_b; job_c],
     perform_all [Resolve "zz"; ListNames; Resolve "b"]
       (snd (get_all_definitions three))).
Proof.
  refine (get_all_definitions_stays three [job_a; job_b; job_c]
            (snd (get_all_definitions three))
            [Resolve "zz"; ListNames; Resolve "b"] _).
  vm_compute; reflexivity.
Defined.

Lemma get_all_definitions_raises_witness :
  _all_definitions (snd (get_all_definitions misnamed)) = None /\
  (get_definition_names misnamed
   = (Raise (CheckError (bad_constructor_name_message "job" "b"
                           "JobDefinition" "a")),
      snd (get_all_definitions misnamed)) \/
   exists names s' before n after definitions sa,
     get_definition_names misnamed = (Ok names, s') /\
     names = before ++ n :: after /\
     map_M get_definition before s' = (Ok definitions, sa) /\
     get_definition n sa
     = (Raise (CheckError (bad_constructor_name_message "job" "b"
                             "JobDefinition" "a")),
        snd (get_all_definitions misnamed))).
Proof.
  refine (get_all_definitions_raises misnamed
            (CheckError (bad_constructor_name_message "job" "b"
                           "JobDefinition" "a"))
            (snd (get_all_definitions misnamed)) _ _); vm_compute; reflexivity.
Defined.

Lemma first_listing_validates_batch_witness :
  exists batch,
    _lazy_definitions_fn three tt = Ok batch /\
    _lazy_definitions (snd (get_definition_names three)) = Some batch /\
    all_valid accept batch /\
    calls (snd (get_definition_names three))
    = LazyDefinitionsFnCalled
      :: map ValidationFnCalled (instances batch) ++ [NamesBuilt] /\
    _definition_cache (snd (get_definition_names three))
    = cache_after accept batch ∅.
Proof.
  refine (first_listing_validates_batch "JobDefinition" "job"
            (_definitions three) accept (Some (_lazy_definitions_fn three))
            three ["a"; "b"; "c"] (snd (get_definition_names three)) _ _);
    vm_compute; reflexivity.
Defined.

Lemma names_built_once_witness :
  count is_names_built
    (calls (perform_all [ListNames; GetAll; Resolve "zz"; ListNames]
              (snd (get_definition_names (perform_all [HasName "a"] three)))))
  = 1.
Proof.
  refine (names_built_once "JobDefinition" "job" (_definitions three) accept
            (Some (_lazy_definitions_fn three)) three [HasName "a"]
            ["a"; "b"; "c"]
            (snd (get_definition_names (perform_all [HasName "a"] three)))
            [ListNames; GetAll; Resolve "zz"; ListNames] _ _ _).
  - vm_compute; reflexivity.
  - vm_compute; reflexivity.
  - discriminate.
Defined.

Lemma rejected_batch_is_listed_witness :
  exists e s1,
    (forall op, perform op rejecting = (Raise e, s1)) /\
    get_definition_names s1
    = (Ok (mapping_keys (_definitions rejecting) ++ ["c"]),
       named (mapping_keys (_definitions rejecting) ++ ["c"]) s1) /\
    (forall n, n ∈ ["c"] -> _definition_cache s1 !! n = None ->
               exists s2, get_definition n s1 = (Raise (KeyError n), s2)).
Proof.
  refine (rejected_batch_is_listed "JobDefinition" "job"
            (_definitions rejecting) (reject "c")
            (Some (_lazy_definitions_fn rejecting)) rejecting [Inst job_c]
            ["c"] _ _ _ _).
  - vm_compute; reflexivity.
  - vm_compute; reflexivity.
  - intros Hall. inversion Hall as [|? ? (d & v & Hd & Hv) _]; subst.
    injection Hd as <-. vm_compute in Hv. discriminate.
  - vm_compute; reflexivity.
Defined.

Lemma agreeing_batch :
  forall d strict, Inst d ∈ [Inst job_c] ->
                   mapping_get (name d) (_definitions agreeing) = Some strict ->
                   py_eq strict (Inst d) = true.
Proof.
  intros d strict Hin. apply list_elem_of_singleton in Hin.
  injection Hin as ->. vm_compute. by intros [= <-].
Defined.

Lemma get_definition_names_returns_witness :
  exists s1,
    get_definition_names (perform_all [Resolve "zz"; GetAll] agreeing)
    = (Ok (mapping_keys (_definitions agreeing)
           ++ lazy_only_names (_definitions agreeing) [Inst job_c]), s1).
Proof.
  refine (get_definition_names_returns "JobDefinition" "job"
            (_definitions agreeing) accept
            (Some (_lazy_definitions_fn agreeing)) agreeing [Inst job_c]
            [Resolve "zz"; GetAll] _ _ _ agreeing_batch).
  - vm_compute; reflexivity.
  - vm_compute; reflexivity.
  - constructor; [|constructor]. exists job_c, job_c. split; reflexivity.
Defined.

Lemma get_definition_lazy_returns_validated_witness :
  exists s1,
    get_definition (name job_c) agreeing = (Ok job_c, s1) /\
    count is_any_factory_call (calls s1) = 0.
Proof.
  refine (get_definition_lazy_returns_validated "JobDefinition" "job"
            (_definitions agreeing) accept
            (Some (_lazy_definitions_fn agreeing)) agreeing [Inst job_c]
            job_c job_c _ _ _ agreeing_batch _ _ _).
  - vm_compute; reflexivity.
  - vm_compute; reflexivity.
  - constructor; [|constructor]. exists job_c, job_c. split; reflexivity.
  - simpl. apply NoDup_singleton.
  - apply list_elem_of_here.
  - reflexivity.
Defined.

Lemma cache_holds_known_names_witness :
  "b" ∈ mapping_keys (_definitions three) \/
  exists batch, _lazy_definitions_fn three tt = Ok batch /\
                "b" ∈ instance_names batch.
Proof.
  refine (cache_holds_known_names "JobDefinition" "job" (_definitions three)
            accept (Some (_lazy_definitions_fn three)) three [GetAll] "b" _ _).
  - vm_compute; reflexivity.
  - exists job_b. vm_compute; reflexivity.
Defined.

Lemma get_all_definitions_always_sorted_witness :
  StronglySorted name_le [job_a; job_b; job_c].
Proof.
  refine (get_all_definitions_always_sorted "JobDefinition" "job"
            (_definitions three) accept (Some (_lazy_definitions_fn three))
            three [GetAll; Resolve "zz"] [job_a; job_b; job_c]
            (snd (get_all_definitions
                    (perform_all [GetAll; Resolve "zz"] three))) _ _);
    vm_compute; reflexivity.
Defined.

Lemma has_definition_known_names_witness :
  exists batch,
    _lazy_definitions_fn three tt = Ok batch /\
    (true = true <->
     "c" ∈ mapping_keys (_definitions three) \/
     exists d, Inst d ∈ batch /\ name d = "c").
Proof.
  refine (has_definition_known_names "JobDefinition" "job"
            (_definitions three) accept (Some (_lazy_definitions_fn three))
            three [Resolve "a"] "c" true
            (snd (has_definition "c" (perform_all [Resolve "a"] three))) _ _);
    vm_compute; reflexivity.
Defined.

End MoreSamples.
